(** * Gallery_GUI.py: thumbnail cache, filter engine, pagination, marking,
      export and start-up of the Tkinter image gallery.

    The Python program is embedded shallowly: every method that the
    properties below talk about becomes a Rocq function over an explicit
    state.  Clock readings ([time.time()]), dialog answers and the file
    system are passed in as arguments.  Timestamps are Python floats and are
    subtracted: they are binary64 floats here too.  Numeric cells are only
    compared: their finite values are represented by rationals, which order
    exactly like the floats they stand for, and NaN and the two infinities
    are separate constructors. *)

From Stdlib Require Import Ascii String QArith Qround PrimFloat.
From stdpp Require Import base list strings gmap pretty.

Open Scope string_scope.
Open Scope list_scope.
Open Scope nat_scope.

(* ---------------- CONFIG ---------------- *)
Definition ROWS : nat := 4.
Definition COLS : nat := 5.
Definition IMAGES_PER_PAGE : nat := ROWS * COLS.
Definition MAX_THUMB_CACHE : nat := 300.

(** ** [collections.OrderedDict]

    An ordered dictionary is its list of items, oldest first; the keys are
    pairwise distinct.  Only the operations the cache uses are modelled. *)

Section OrderedDict.
Context {V : Type}.

Definition odict : Type := list (string * V).

Definition od_keys (d : odict) : list string := d.*1.

(** [d[k]] / [k in d] *)
Fixpoint od_lookup (k : string) (d : odict) : option V :=
  match d with
  | [] => None
  | (k', v) :: d' => if String.eqb k k' then Some v else od_lookup k d'
  end.

(** [d[k] = v]: an existing key keeps its position, a new key goes last. *)
Fixpoint od_setitem (k : string) (v : V) (d : odict) : odict :=
  match d with
  | [] => [(k, v)]
  | (k', v') :: d' =>
      if String.eqb k k' then (k, v) :: d' else (k', v') :: od_setitem k v d'
  end.

(** [del d[k]] *)
Fixpoint od_delitem (k : string) (d : odict) : odict :=
  match d with
  | [] => []
  | (k', v') :: d' =>
      if String.eqb k k' then d' else (k', v') :: od_delitem k d'
  end.

(** [d.move_to_end(k)]; the cache only calls it on a key that is present. *)
Definition od_move_to_end (k : string) (d : odict) : odict :=
  match od_lookup k d with
  | Some v => od_delitem k d ++ [(k, v)]
  | None => d
  end.

(** [d.popitem(last=False)], the dictionary that remains. *)
Definition od_popitem_first (d : odict) : odict :=
  match d with
  | [] => []
  | _ :: d' => d'
  end.
End OrderedDict.

Arguments odict : clear implicits.

(** ** class ThumbnailCache *)

Module ThumbnailCache.

(** A [PhotoImage] handle. *)
Definition PhotoImage : Type := nat.

(** The stored tuple [(image, time.time())]: the time is a Python float, an
    IEEE 754 binary64 number. *)
Definition entry : Type := PhotoImage * float.

Record t : Type := mk { cache : odict entry; max_size : nat }.

Definition init (max_size : nat) : t := {| cache := []; max_size := max_size |}.

(** [get]: on a hit the key moves to the end and the image is returned;
    the stored time is left as it is. *)
Definition get (path : string) (c : t) : option PhotoImage * t :=
  match od_lookup path (cache c) with
  | Some _ =>
      let d := od_move_to_end path (cache c) in
      (fst <$> od_lookup path d, {| cache := d; max_size := max_size c |})
  | None => (None, c)
  end.

(** [_cleanup]: [while len(self.cache) > self.max_size: popitem(last=False)] *)
Fixpoint cleanup_loop (max : nat) (d : odict entry) : odict entry :=
  match d with
  | [] => d
  | _ :: d' => if max <? length d then cleanup_loop max d' else d
  end.

Definition _cleanup (c : t) : t :=
  {| cache := cleanup_loop (max_size c) (cache c); max_size := max_size c |}.

(** [put]; [now] is the value [time.time()] returns. *)
Definition put (path : string) (image : PhotoImage) (now : float) (c : t) : t :=
  let d := od_setitem path (image, now) (cache c) in
  let d := od_move_to_end path d in
  _cleanup {| cache := d; max_size := max_size c |}.

(** [now - t > max_age_seconds]: the difference is the rounded one of the
    floats. *)
Definition expired (max_age now : float) (e : entry) : bool :=
  PrimFloat.ltb max_age (PrimFloat.sub now (snd e)).

(** [purge_unused]; [now] is the value [time.time()] returns. *)
Definition purge_unused (max_age now : float) (c : t) : t :=
  let keys_to_remove :=
    (filter (λ kv : string * entry, Is_true (expired max_age now kv.2)) (cache c)).*1 in
  {| cache := fold_left (λ d k, od_delitem k d) keys_to_remove (cache c);
     max_size := max_size c |}.

Definition default_max_age : float := 900%float.

(** A call made on the cache from outside. *)
Inductive op : Type :=
| Get (path : string)
| Put (path : string) (image : PhotoImage) (now : float).

Definition step (c : t) (o : op) : t :=
  match o with
  | Get p => (get p c).2
  | Put p i now => put p i now c
  end.

Definition run (ops : list op) (c : t) : t := fold_left step ops c.

(** *** The cache of the specification

    What follows is written from the words of the specification, not from
    the code, to compare the code with: a cache of capacity [N] holds keys,
    least recently used first; touching a key moves it to the
    most-recently-used end; a [put] touches its key and then evicts from the
    least-recently-used end while more than [N] keys are held; a [get] of a key
    that is held touches it, a [get] of any other key changes nothing.  Images
    and times play no part. *)
Definition touch (r : list string) (k : string) : list string :=
  filter (λ x, x ≠ k) r ++ [k].

(** The [n] most recently used keys of a recency order. *)
Definition most_recent (n : nat) (r : list string) : list string :=
  drop (length r - n) r.

Definition lru_step (N : nat) (r : list string) (o : op) : list string :=
  match o with
  | Get p => if bool_decide (p ∈ r) then touch r p else r
  | Put p _ _ => most_recent N (touch r p)
  end.

Definition lru (N : nat) (ops : list op) : list string :=
  fold_left (lru_step N) ops [].

(** The keys a call touches when the specification's cache holds [r]. *)
Definition lru_touched (r : list string) (o : op) : list string :=
  match o with
  | Get p => if bool_decide (p ∈ r) then [p] else []
  | Put p _ _ => [p]
  end.

Fixpoint lru_touches (N : nat) (r : list string) (ops : list op) : list string :=
  match ops with
  | [] => []
  | o :: ops' => lru_touched r o ++ lru_touches N (lru_step N r o) ops'
  end.

(** The recency order of a sequence of touches. *)
Definition recency (ts : list string) : list string := fold_left touch ts [].

(** The image the latest [put] of the key [p] carried, [acc] when there is
    none. *)
Definition put_image (p : string) (acc : option PhotoImage) (o : op)
  : option PhotoImage :=
  match o with
  | Put q i _ => if String.eqb p q then Some i else acc
  | Get _ => acc
  end.

Definition last_put (p : string) (ops : list op) : option PhotoImage :=
  fold_left (put_image p) ops None.

Definition puts (kvs : list (string * (PhotoImage * float))) : list op :=
  (λ kv, Put kv.1 kv.2.1 kv.2.2) <$> kvs.

(** Two calls that differ at most in the image and the time they carry. *)
Definition same_call (o1 o2 : op) : Prop :=
  match o1, o2 with
  | Get p, Get q => p = q
  | Put p _ _, Put q _ _ => p = q
  | _, _ => False
  end.

End ThumbnailCache.

(** ** Text: [str.lower], [str.strip] and [Series.str.contains]

    A string is a text whose characters are the code points below 256
    (U+0000 to U+00FF, Latin-1), one character for each; texts with a
    character beyond that range are not represented.  A string literal of
    Rocq holds the bytes of its UTF-8 encoding, so a character from U+0080
    on is written by its code: [String "233"%char ""] is the text of the one
    character U+00E9. *)

(** [str.lower] on one character: [A]-[Z] and the capital letters U+00C0 to
    U+00DE, the multiplication sign U+00D7 apart, go to the letter 32 places
    up; every other character below 256 is left as it is. *)
Definition lower_char (c : ascii) : ascii :=
  let n := nat_of_ascii c in
  if ((65 <=? n) && (n <=? 90))
     || ((192 <=? n) && (n <=? 222) && negb (n =? 215))
  then ascii_of_nat (n + 32) else c.

Fixpoint lower (s : string) : string :=
  match s with
  | EmptyString => EmptyString
  | String c s' => String (lower_char c) (lower s')
  end.

(** [str.isspace] on one character, which is what [str.strip] removes:
    U+0009 to U+000D, U+001C to U+0020, U+0085 and U+00A0. *)
Definition is_space (c : ascii) : bool :=
  let n := nat_of_ascii c in
  ((9 <=? n) && (n <=? 13)) || ((28 <=? n) && (n <=? 32))
  || (n =? 133) || (n =? 160).

Fixpoint lstrip (s : string) : string :=
  match s with
  | EmptyString => EmptyString
  | String c s' => if is_space c then lstrip s' else s
  end.

Fixpoint rstrip (s : string) : string :=
  match s with
  | EmptyString => EmptyString
  | String c s' =>
      match rstrip s' with
      | EmptyString => if is_space c then EmptyString else String c EmptyString
      | t => String c t
      end
  end.

Definition strip (s : string) : string := lstrip (rstrip s).

(** The characters with a meaning of their own in a Python regular
    expression: [. ^ $ * + ? { } [ ] \ | ( )]. *)
Definition is_special (c : ascii) : bool :=
  existsb (Ascii.eqb c) (list_ascii_of_string ".^$*+?{}[]\|()").

(** A compiled pattern of the fragment that is modelled: a sequence of
    ordinary characters and [.]. *)
Inductive re_item : Type :=
| ReChar (c : ascii)
| ReAny.

(** [re.compile(pat, re.IGNORECASE)].  [pandas.Series.str.contains] takes its
    pattern as a regular expression ([regex=True] is the default).  A pattern
    that uses any other special character is not compiled here, see
    [re_other] below. *)
Fixpoint re_compile (pat : string) : option (list re_item) :=
  match pat with
  | EmptyString => Some []
  | String c pat' =>
      match re_compile pat' with
      | None => None
      | Some re =>
          if Ascii.eqb c "."%char then Some (ReAny :: re)
          else if is_special c then None
          else Some (ReChar c :: re)
      end
  end.

(** One item against one character, ignoring case; [.] is any character but
    a newline. *)
Definition re_item_matches (i : re_item) (c : ascii) : bool :=
  match i with
  | ReChar p => Ascii.eqb (lower_char p) (lower_char c)
  | ReAny => negb (Ascii.eqb c "010"%char)
  end.

(** The pattern matches at the start of [s]. *)
Fixpoint re_match_here (re : list re_item) (s : string) : bool :=
  match re, s with
  | [], _ => true
  | _ :: _, EmptyString => false
  | i :: re', String c s' => re_item_matches i c && re_match_here re' s'
  end.

(** [regex.search(s) is not None] *)
Fixpoint re_search (re : list re_item) (s : string) : bool :=
  re_match_here re s ||
  match s with
  | EmptyString => false
  | String _ s' => re_search re s'
  end.

Section PythonRe.

(** Python's [re] on the patterns that are not of the modelled fragment: the
    search of the compiled pattern in a cell, or nothing when [re.compile]
    raises [re.error].  The handlers below are defined, and their properties
    proved, for whatever it is. *)
Variable re_other : string → option (string → bool).

(** [series.str.contains(pat, case=False)], as a test on one cell. *)
Definition str_contains (pat : string) : option (string → bool) :=
  match re_compile pat with
  | Some re => Some (re_search re)
  | None => re_other pat
  end.

(** [os.path.join(a, b)] (posixpath). *)
Fixpoint ends_with_slash (a : string) : bool :=
  match a with
  | EmptyString => false
  | String c EmptyString => Ascii.eqb c "/"%char
  | String _ a' => ends_with_slash a'
  end.

Definition os_path_join (a b : string) : string :=
  match b with
  | String "/"%char _ => b
  | _ =>
      if String.eqb a "" || ends_with_slash a then (a ++ b)%string
      else (a ++ "/" ++ b)%string
  end.

(** ** The data frame *)

(** A float cell. *)
Inductive fval : Type :=
| FNaN
| FNegInf
| FFin (q : Q)
| FPosInf.

(** [a <= b] on floats: false as soon as one side is NaN. *)
Definition fle (a b : fval) : bool :=
  match a, b with
  | FNaN, _ | _, FNaN => false
  | FNegInf, _ => true
  | _, FPosInf => true
  | FFin x, FFin y => Qle_bool x y
  | _, _ => false
  end.

(** One row of [self.df].  [num] holds the cells of the numeric columns,
    [cat] those of the other columns ([None] for a missing value).  The
    [dir] and [file] cells are strings: a table in which [pd.read_csv] has
    read one of them as a number or as a missing value is not represented. *)
Record Row : Type := mkRow {
  dir : string;
  file : string;
  marked : bool;
  num : gmap string fval;
  cat : gmap string (option string)
}.

Definition set_marked (b : bool) (r : Row) : Row :=
  {| dir := dir r; file := file r; marked := b; num := num r; cat := cat r |}.

(** [row[k]] for a numeric column.  Every row of a frame has a cell in every
    column; a cell that is not there reads as missing. *)
Definition num_cell (r : Row) (k : string) : fval := default FNaN (num r !! k).

(** [row[k] == v] for a categorical column. *)
Definition cat_equals (r : Row) (k v : string) : bool :=
  match cat r !! k with
  | Some (Some x) => String.eqb x v
  | _ => false
  end.

(** A frame after [reset_index()]: each row with the cell of its column
    [index], which holds the index the row has in [self.df], its position
    (the table has a RangeIndex and never loses a row).  This is so for a
    table that has no column named [index] of its own, see
    [own_index_column] below. *)
Definition frame : Type := list (nat * Row).

(** [self.df] seen with its RangeIndex. *)
Definition indexed (df : list Row) : frame := imap pair df.

(** [int(self.df["__marked__"].sum())] *)
Definition marked_count (df : list Row) : nat :=
  length (filter (λ r, Is_true (marked r)) df).

(** ** class ImageGallery: the state the handlers read and write *)

(** The values held by the filter panel's Tk variables. *)
Record Filters : Type := mkFilters {
  numeric_filters : list (string * (fval * fval));
  category_filters : list (string * string);
  dir_search_var : string;
  file_search_var : string;
  hide_marked_var : bool
}.

Record Gallery : Type := mkGallery {
  df : list Row;
  filtered_df : frame;
  page : Z;
  marked_page : Z;
  selected_index : option nat;
  widgets : Filters;
  same_name_var : bool
}.

(** [math.ceil(n / IMAGES_PER_PAGE)] *)
Definition ceil_pages (n : nat) : Z :=
  Qceiling (inject_Z (Z.of_nat n) / inject_Z (Z.of_nat IMAGES_PER_PAGE)).

(** [max(0, math.ceil(n / IMAGES_PER_PAGE) - 1)] *)
Definition max_page (n : nat) : Z := Z.max 0 (ceil_pages n - 1).

(** [max(1, math.ceil(n / IMAGES_PER_PAGE))], the count shown in the labels. *)
Definition total_pages (n : nat) : Z := Z.max 1 (ceil_pages n).

(** *** Filtering *)

(** [df = df[(df[k] >= mn.get()) & (df[k] <= mx.get())]] *)
Definition numeric_step (d : frame) (f : string * (fval * fval)) : frame :=
  filter (λ ir : nat * Row,
            Is_true (fle f.2.1 (num_cell ir.2 f.1) && fle (num_cell ir.2 f.1) f.2.2)) d.

(** [if var.get() != "All": df = df[df[k] == var.get()]] *)
Definition category_step (d : frame) (f : string * string) : frame :=
  if String.eqb f.2 "All" then d
  else filter (λ ir : nat * Row, Is_true (cat_equals ir.2 f.1 f.2)) d.

(** [q = var.get().strip().lower()] and, when [q] is not empty,
    [df = df[df[field].str.lower().str.contains(q, case=False)]] *)
Definition text_step (var : string) (field : Row → string) (d : frame) : option frame :=
  let q := lower (strip var) in
  if String.eqb q "" then Some d
  else (λ m, filter (λ ir : nat * Row, Is_true (m (lower (field ir.2)))) d)
         <$> str_contains q.

(** [if self.hide_marked_var.get(): df = df[df["__marked__"] == False]] *)
Definition hide_step (hide : bool) (d : frame) : frame :=
  if hide then filter (λ ir : nat * Row, Is_true (negb (marked ir.2))) d else d.

(** The frame [_apply_filters] stores in [self.filtered_df]. *)
Definition filter_frame (w : Filters) (df : list Row) : option frame :=
  let d := indexed df in
  let d := fold_left numeric_step (numeric_filters w) d in
  let d := fold_left category_step (category_filters w) d in
  d ← text_step (dir_search_var w) dir d;
  d ← text_step (file_search_var w) file d;
  Some (hide_step (hide_marked_var w) d).

(** How a handler ends: it returns, or an exception leaves it.  Either way
    the object is left in a state, and the next handler runs on it: Tk
    reports an exception raised in a callback and the main loop goes on. *)
Inductive completion (A : Type) : Type :=
| Completes (a : A)
| Raises (a : A).

Arguments Completes {A} a.
Arguments Raises {A} a.

Definition state_of {A : Type} (c : completion A) : A :=
  match c with
  | Completes a | Raises a => a
  end.

(** [_apply_filters(reset_page)].  The result is the state in which the
    method returns.  There is none when a query does not compile: [re.error]
    leaves the method before it has assigned anything, and [self] is as it
    was.  Rendering and the labels, which come after the assignments, only
    write to widgets and to the thumbnail cache, and they return on the
    tables represented here, whose [dir] and [file] cells are strings (see
    [_render_page] below, where the rows are of any type). *)
Definition _apply_filters (reset_page : bool) (s : Gallery) : option Gallery :=
  d ← filter_frame (widgets s) (df s);
  let p := Z.min (page s) (max_page (length d)) in
  let p := if reset_page then 0%Z else p in
  Some {| df := df s; filtered_df := d; page := p;
          marked_page := marked_page s; selected_index := None;
          widgets := widgets s; same_name_var := same_name_var s |}.

(** A handler whose last statement is the call [self._apply_filters(...)]
    on the state [s]. *)
Definition ends_with_apply_filters (reset_page : bool) (s : Gallery)
  : completion Gallery :=
  match _apply_filters reset_page s with
  | Some s' => Completes s'
  | None => Raises s
  end.

(** *** Selection *)

Definition _select_row (idx : nat) (s : Gallery) : Gallery :=
  {| df := df s; filtered_df := filtered_df s; page := page s;
     marked_page := marked_page s; selected_index := Some idx;
     widgets := widgets s; same_name_var := same_name_var s |}.

(** [_toggle_same_name_filter]; [df.at] on an index outside the table raises
    [KeyError] before anything is assigned. *)
Definition _toggle_same_name_filter (s : Gallery) : completion Gallery :=
  match same_name_var s, selected_index s with
  | true, Some i =>
      match df s !! i with
      | None => Raises s
      | Some r =>
          Completes
            {| df := df s;
               filtered_df :=
                 filter (λ ir : nat * Row, Is_true (String.eqb (file ir.2) (file r)))
                        (indexed (df s));
               page := 0%Z; marked_page := marked_page s;
               selected_index := selected_index s;
               widgets := widgets s; same_name_var := same_name_var s |}
      end
  | _, _ => ends_with_apply_filters true s
  end.

(** *** Marking *)

Definition with_df (d : list Row) (s : Gallery) : Gallery :=
  {| df := d; filtered_df := filtered_df s; page := page s;
     marked_page := marked_page s; selected_index := selected_index s;
     widgets := widgets s; same_name_var := same_name_var s |}.

(** [_toggle_mark].  Reading [df.at] on an index outside the table raises
    [KeyError] with nothing changed; once the mark is written, an exception
    out of [_apply_filters] leaves the table with the new mark. *)
Definition _toggle_mark (s : Gallery) : completion Gallery :=
  match selected_index s with
  | None => Completes s
  | Some i =>
      match df s !! i with
      | None => Raises s
      | Some r =>
          ends_with_apply_filters false
            (with_df (<[i := set_marked (negb (marked r)) r]> (df s)) s)
      end
  end.

(** [self.df.loc[self.filtered_df["index"], "__marked__"] = True] *)
Definition mark_rows (idx : list nat) (d : list Row) : list Row :=
  fold_left (λ d i, alter (set_marked true) i d) idx d.

(** [_mark_all_filtered].  [df.loc] with a list of labels raises [KeyError],
    and writes nothing, when one of them is not a label of the table. *)
Definition _mark_all_filtered (s : Gallery) : completion Gallery :=
  let labels := (filtered_df s).*1 in
  if forallb (λ i, i <? length (df s)) labels
  then ends_with_apply_filters false (with_df (mark_rows labels (df s)) s)
  else Raises s.

Definition _clear_marked (s : Gallery) : completion Gallery :=
  ends_with_apply_filters false (with_df (set_marked false <$> df s) s).

(** *** Pagination *)

Definition with_page (p : Z) (s : Gallery) : Gallery :=
  {| df := df s; filtered_df := filtered_df s; page := p;
     marked_page := marked_page s; selected_index := selected_index s;
     widgets := widgets s; same_name_var := same_name_var s |}.

Definition with_marked_page (p : Z) (s : Gallery) : Gallery :=
  {| df := df s; filtered_df := filtered_df s; page := page s;
     marked_page := p; selected_index := selected_index s;
     widgets := widgets s; same_name_var := same_name_var s |}.

Definition _next_page (s : Gallery) : Gallery :=
  if (page s <? max_page (length (filtered_df s)))%Z
  then with_page (page s + 1)%Z s else s.

Definition _prev_page (s : Gallery) : Gallery :=
  if (0 <? page s)%Z then with_page (page s - 1)%Z s else s.

Definition _next_marked_page (s : Gallery) : Gallery :=
  if ((marked_page s + 1) * Z.of_nat IMAGES_PER_PAGE <? Z.of_nat (marked_count (df s)))%Z
  then with_marked_page (marked_page s + 1)%Z s else s.

Definition _prev_marked_page (s : Gallery) : Gallery :=
  if (0 <? marked_page s)%Z then with_marked_page (marked_page s - 1)%Z s else s.

(** The user edits a widget of the filter panel. *)
Definition with_widgets (w : Filters) (s : Gallery) : Gallery :=
  {| df := df s; filtered_df := filtered_df s; page := page s;
     marked_page := marked_page s; selected_index := selected_index s;
     widgets := w; same_name_var := same_name_var s |}.


(** ** Export *)

(** A [messagebox] call. *)
Inductive dialog : Type :=
| ShowInfo (title msg : string)
| ShowError (title msg : string).

(** [self.df[self.df["__marked__"]]] *)
Definition marked_rows (d : list Row) : list Row :=
  filter (λ r, Is_true (marked r)) d.

(** What the loop [for _, r in marked_df.iterrows(): f.write(... + "\n")]
    writes. *)
Fixpoint export_text (rows : list Row) : string :=
  match rows with
  | [] => EmptyString
  | r :: rows' =>
      (os_path_join (dir r) (file r) ++ String "010"%char EmptyString
         ++ export_text rows')%string
  end.

(** [_export_marked_txt].  [chosen] is the answer of [asksaveasfilename]
    (empty when the dialog is cancelled), [io_error] the text of the
    exception [open] raises, if it raises, and [fs] the files on disk.  The
    result is the files on disk afterwards and the message boxes shown. *)
Definition _export_marked_txt (s : Gallery) (chosen : string)
    (io_error : option string) (fs : gmap string string)
  : gmap string string * list dialog :=
  let marked_df := marked_rows (df s) in
  match marked_df with
  | [] => (fs, [ShowInfo "Export" "No marked files to export."])
  | _ :: _ =>
      if String.eqb chosen "" then (fs, [])
      else
        match io_error with
        | None =>
            (<[chosen := export_text marked_df]> fs,
             [ShowInfo "Export complete"
                ("Exported " ++ pretty (length marked_df) ++ " file paths.")%string])
        | Some e => (fs, [ShowError "Error" e])
        end
  end.

(** ** Start-up *)

(** A Python exception that leaves a method. *)
Inductive exn : Type :=
| TclError (msg : string)
| AttributeError (msg : string).

Inductive outcome (A : Type) : Type :=
| Returned (a : A)
| Raised (e : exn).

Arguments Returned {A} a.
Arguments Raised {A} e.

(** What [pd.read_csv] returns: the column names, those among them with a
    numeric dtype, and the rows.  The [dir], [file] and [marked] fields of a
    row stand for the cells of the columns of these names and mean nothing
    when the column is absent. *)
Record Csv : Type := mkCsv {
  csv_columns : list string;
  csv_numeric : list string;
  csv_rows : list Row
}.

Definition has_column (c : string) (cols : list string) : bool :=
  existsb (String.eqb c) cols.

(** The attributes [_load_dataframe] leaves on [self], whether it has called
    [self.destroy()], and the message boxes it has shown. *)
Record Loaded : Type := mkLoaded {
  destroyed : bool;
  load_dialogs : list dialog;
  loaded_df : option (list Row);
  numeric_keys : list string;
  category_keys : list string
}.

Definition reserved_column (c : string) : bool :=
  existsb (String.eqb c) ["dir"; "file"; "__marked__"; "Unnamed: 0"].

(** [_load_dataframe].  [chosen] is the answer of [askopenfilename]. *)
Definition _load_dataframe (chosen : string) (csv : Csv) : Loaded :=
  if String.eqb chosen "" then
    {| destroyed := true; load_dialogs := []; loaded_df := None;
       numeric_keys := []; category_keys := [] |}
  else if negb (has_column "dir" (csv_columns csv) && has_column "file" (csv_columns csv)) then
    {| destroyed := true;
       load_dialogs := [ShowError "Error" "Dataframe must contain 'dir' and 'file'"];
       loaded_df := Some (csv_rows csv);
       numeric_keys := []; category_keys := [] |}
  else
    let rows :=
      if has_column "__marked__" (csv_columns csv) then csv_rows csv
      else set_marked false <$> csv_rows csv in
    let nk :=
      List.filter (λ c, negb (reserved_column c) && has_column c (csv_numeric csv))
                  (csv_columns csv) in
    let ck :=
      List.filter (λ c, negb (reserved_column c) && negb (has_column c nk))
                  (csv_columns csv) in
    {| destroyed := false; load_dialogs := []; loaded_df := Some rows;
       numeric_keys := nk; category_keys := ck |}.

(** [_build_layout].  Its first statement, [tk.PanedWindow(self, ...)],
    creates a widget in the root window; Tk raises [TclError] when the
    application has been destroyed.  Otherwise the filter panel is built with
    the initial values of its variables. *)
Definition _build_layout (l : Loaded) : outcome Filters :=
  if destroyed l then Raised (TclError "application has been destroyed")
  else
    Returned
      {| numeric_filters := (λ k, (k, (FFin 0, FFin 1))) <$> numeric_keys l;
         category_filters := (λ k, (k, "All")) <$> category_keys l;
         dir_search_var := ""; file_search_var := "";
         hide_marked_var := false |}.

(** One run of [ImageGallery.__init__]: the methods it has entered, in
    order, the message boxes shown, and how it ended. *)
Record InitRun : Type := mkInitRun {
  entered : list string;
  dialogs : list dialog;
  result : outcome (option Gallery)
}.

(** [__init__]: the three calls are made one after the other, whatever
    [_load_dataframe] has done. *)
Definition __init__ (chosen : string) (csv : Csv) : InitRun :=
  let l := _load_dataframe chosen csv in
  match _build_layout l with
  | Raised e =>
      {| entered := ["_load_dataframe"; "_build_layout"];
         dialogs := load_dialogs l; result := Raised e |}
  | Returned w =>
      match loaded_df l with
      | None =>
          {| entered := ["_load_dataframe"; "_build_layout"; "_apply_filters"];
             dialogs := load_dialogs l;
             result := Raised (AttributeError "'NoneType' object has no attribute 'copy'") |}
      | Some d =>
          {| entered := ["_load_dataframe"; "_build_layout"; "_apply_filters"];
             dialogs := load_dialogs l;
             result :=
               Returned
                 (_apply_filters true
                    {| df := d; filtered_df := []; page := 0%Z; marked_page := 0%Z;
                       selected_index := None; widgets := w;
                       same_name_var := false |}) |}
      end
  end.

(** The lines of a text, as reading the file back gives them: the lines
    that end in a newline, without it, and what follows the last newline. *)
Fixpoint lines_from (s : string) (cur : string) : list string * string :=
  match s with
  | EmptyString => ([], cur)
  | String c s' =>
      if Ascii.eqb c "010"%char
      then ((cur :: (lines_from s' EmptyString).1), (lines_from s' EmptyString).2)
      else lines_from s' (cur ++ String c EmptyString)%string
  end.

Definition text_lines (s : string) : list string * string := lines_from s EmptyString.

Fixpoint has_newline (s : string) : bool :=
  match s with
  | EmptyString => false
  | String c s' => Ascii.eqb c "010"%char || has_newline s'
  end.

(** ** Vocabulary of the properties *)

(** The test one text filter makes on one cell: no test when the stripped,
    lowered query is empty, else the compiled pattern searched in the lowered
    cell. *)
Definition text_match (var field : string) : bool :=
  let q := lower (strip var) in
  String.eqb q "" ||
  match str_contains q with
  | Some m => m (lower field)
  | None => false
  end.

(** A query without any character that is special in a regular expression. *)
Fixpoint plain (q : string) : bool :=
  match q with
  | EmptyString => true
  | String c q' => negb (is_special c) && plain q'
  end.

(** Both text queries of the panel compile: no [re.error] is raised. *)
Definition queries_compile (w : Filters) : Prop :=
  is_Some (str_contains (lower (strip (dir_search_var w))))
  ∧ is_Some (str_contains (lower (strip (file_search_var w)))).

(** Substring containment ignoring case, as the specification words the
    text predicates. *)
Definition contains_ignoring_case (query field : string) : Prop :=
  ∃ pre post : string, lower field = (pre ++ lower query ++ post)%string.

(** The row passes every filter of the panel except "hide marked". *)
Definition passes_unmarked_filters (w : Filters) (r : Row) : Prop :=
  (∀ f, f ∈ numeric_filters w →
        fle f.2.1 (num_cell r f.1) && fle (num_cell r f.1) f.2.2 = true)
  ∧ (∀ f, f ∈ category_filters w → f.2 = "All" ∨ cat_equals r f.1 f.2 = true)
  ∧ text_match (dir_search_var w) (dir r) = true
  ∧ text_match (file_search_var w) (file r) = true.

End PythonRe.

Arguments Returned {A} a.
Arguments Raised {A} e.
Arguments Completes {A} a.
Arguments Raises {A} a.

(** ** Sample data *)

(** [re_other] for a session in which no query leaves the modelled
    fragment. *)
Definition re_unused : string → option (string → bool) := λ _, None.

Definition sample_row (d f : string) (m : bool) (score : fval)
    (label : option string) : Row :=
  {| dir := d; file := f; marked := m;
     num := {["score" := score]}; cat := {["label" := label]} |}.

Definition sample_df : list Row :=
  [ sample_row "cats" "a.png" false (FFin (1 # 2)) (Some "cat");
    sample_row "Dogs" "ba.png" true (FFin (1 # 4)) (Some "dog");
    sample_row "cats" "c.png" false FNaN None ].

Definition sample_widgets : Filters :=
  {| numeric_filters := [("score", (FFin 0, FFin 1))];
     category_filters := [("label", "All")];
     dir_search_var := ""; file_search_var := "";
     hide_marked_var := false |}.

(** The first row of the sample table is selected. *)
Definition sample_gallery : Gallery :=
  {| df := sample_df;
     filtered_df := [(0, sample_row "cats" "a.png" false (FFin (1 # 2)) (Some "cat"));
                     (1, sample_row "Dogs" "ba.png" true (FFin (1 # 4)) (Some "dog"))];
     page := 0%Z; marked_page := 0%Z; selected_index := Some 0;
     widgets := sample_widgets; same_name_var := false |}.

(** Twenty-one marked rows, shown unfiltered. *)
Definition marked_table : list Row :=
  replicate 21 (sample_row "shots" "x.png" true (FFin (1 # 2)) (Some "cat")).

Definition marked_gallery : Gallery :=
  {| df := marked_table; filtered_df := indexed marked_table;
     page := 0%Z; marked_page := 0%Z; selected_index := None;
     widgets := sample_widgets; same_name_var := false |}.


(** One row whose [dir] cell begins with U+00C9 (capital E with acute
    accent), and the query U+00E9 (the small letter) for [dir]. *)
Definition accent_gallery : Gallery :=
  let table := [ sample_row (String "201"%char "cole") "a.png" false
                            (FFin (1 # 2)) (Some "cat") ] in
  {| df := table; filtered_df := indexed table;
     page := 0%Z; marked_page := 0%Z; selected_index := None;
     widgets := {| numeric_filters := []; category_filters := [];
                   dir_search_var := String "233"%char "";
                   file_search_var := ""; hide_marked_var := false |};
     same_name_var := false |}.

(** The panel of the sample gallery with a file query that is not a regular
    expression: [re.compile("+")] raises [re.error]. *)
Definition sample_widgets_bad_query : Filters :=
  {| numeric_filters := [("score", (FFin 0, FFin 1))];
     category_filters := [("label", "All")];
     dir_search_var := ""; file_search_var := "+";
     hide_marked_var := false |}.

(** A table file without the [file] column. *)
Definition csv_without_file : Csv :=
  {| csv_columns := ["dir"; "score"]; csv_numeric := ["score"]; csv_rows := [] |}.

(** ** The cache as the renderer uses it *)

(** A call on the cache, [purge_unused] included. *)
Inductive cache_call : Type :=
| CallGet (path : string)
| CallPut (path : string) (image : ThumbnailCache.PhotoImage) (now : float)
| CallPurge (max_age now : float).

Definition cache_exec (c : ThumbnailCache.t) (k : cache_call) : ThumbnailCache.t :=
  match k with
  | CallGet p => (ThumbnailCache.get p c).2
  | CallPut p i now => ThumbnailCache.put p i now c
  | CallPurge a now => ThumbnailCache.purge_unused a now c
  end.

(** The keys are distinct and the capacity is respected. *)
Definition cache_ok (c : ThumbnailCache.t) : Prop :=
  NoDup (od_keys (ThumbnailCache.cache c))
  ∧ length (ThumbnailCache.cache c) ≤ ThumbnailCache.max_size c.

(** ** Rendering a page *)

(** A bound of a Python slice, brought into [0, n]. *)
Definition slice_bound (n : nat) (i : Z) : nat :=
  if (i <? 0)%Z then Z.to_nat (Z.max 0 (Z.of_nat n + i))
  else Z.to_nat (Z.min i (Z.of_nat n)).

(** [df.iloc[a:b]] with the positional labels the rows keep. *)
Definition iloc_slice {A : Type} (a b : Z) (l : list A) : list (nat * A) :=
  let lo := slice_bound (length l) a in
  let hi := slice_bound (length l) b in
  take (hi - lo) (drop lo (imap pair l)).

(** A thumbnail label placed in the grid: its row and column, the image it
    shows and the index its click handler carries, the cell of the column
    [index] in the row of the frame. *)
Record cell (L : Type) : Type := mkCell {
  cell_row : Z;
  cell_col : Z;
  cell_image : ThumbnailCache.PhotoImage;
  cell_index : L
}.

Arguments mkCell {L} _ _ _ _.
Arguments cell_row {L} _.
Arguments cell_col {L} _.
Arguments cell_image {L} _.
Arguments cell_index {L} _.

(** One more label placed before the rest of the loop. *)
Definition place {L : Type} (x : cell L)
    (rest : completion (ThumbnailCache.t * list (cell L)))
  : completion (ThumbnailCache.t * list (cell L)) :=
  match rest with
  | Completes (c, xs) => Completes (c, x :: xs)
  | Raises (c, xs) => Raises (c, x :: xs)
  end.

Section RenderRows.

(** The frame that is rendered: rows of a type [R], each with the cell of
    its column [index], of a type [L]. *)
Context {L R : Type}.

(** [os.path.join(row["dir"], row["file"])], or nothing when it raises
    [TypeError] because one of the cells is not a string. *)
Variable path_of : R → option string.

(** The thumbnail that [Image.open], [thumbnail] and [PhotoImage] give for
    a path, or nothing when one of them raises. *)
Variable decode : string → option ThumbnailCache.PhotoImage.

(** [clock i] is what [time.time()] returns while the row of label [i] is
    put. *)
Variable clock : nat → float.

(** The loop of [_render_page] over the rows of the page: the cache
    afterwards and the labels placed.  The join of the path is outside the
    [try]: an exception there leaves the loop with the labels placed so
    far. *)
Fixpoint render_rows (start : Z) (rows : list (nat * (L * R)))
    (c : ThumbnailCache.t) : completion (ThumbnailCache.t * list (cell L)) :=
  match rows with
  | [] => Completes (c, [])
  | (i, (idx, row)) :: rest =>
      let r := ((Z.of_nat i - start) `div` Z.of_nat COLS)%Z in
      let col := ((Z.of_nat i - start) `mod` Z.of_nat COLS)%Z in
      match path_of row with
      | None => Raises (c, [])
      | Some path =>
          match ThumbnailCache.get path c with
          | (Some thumb, c1) =>
              place {| cell_row := r; cell_col := col; cell_image := thumb;
                       cell_index := idx |}
                    (render_rows start rest c1)
          | (None, c1) =>
              match decode path with
              | Some thumb =>
                  place {| cell_row := r; cell_col := col; cell_image := thumb;
                           cell_index := idx |}
                        (render_rows start rest
                           (ThumbnailCache.put path thumb (clock i) c1))
              | None => render_rows start rest c1
              end
          end
      end
  end.

(** [_render_page(frame, df, page)]: the cache afterwards and the labels
    placed.  [now] is what [time.time()] returns in [purge_unused]. *)
Definition _render_page (now : float) (d : list (L * R)) (page : Z)
    (c : ThumbnailCache.t) : completion (ThumbnailCache.t * list (cell L)) :=
  let c := ThumbnailCache.purge_unused ThumbnailCache.default_max_age now c in
  let start := (page * Z.of_nat IMAGES_PER_PAGE)%Z in
  render_rows start (iloc_slice start (start + Z.of_nat IMAGES_PER_PAGE)%Z d) c.

End RenderRows.

(** The path of a row whose [dir] and [file] cells are strings. *)
Definition row_path (r : Row) : option string :=
  Some (os_path_join (dir r) (file r)).



(** ** The user's actions *)

Definition with_same_name (b : bool) (s : Gallery) : Gallery :=
  {| df := df s; filtered_df := filtered_df s; page := page s;
     marked_page := marked_page s; selected_index := selected_index s;
     widgets := widgets s; same_name_var := b |}.

(** What the user can do once the window is up: press a button, click a
    thumbnail (the handler bound to the label carries the index [idx] the
    label was made with), tick "Show same filename" (the variable flips, then
    the command runs), or edit the filter panel. *)
Inductive action : Type :=
| ApplyFilters
| MarkAllFiltered
| ClearMarked
| ToggleMark
| ClickThumbnail (idx : nat)
| TickSameName
| NextPage
| PrevPage
| NextMarkedPage
| PrevMarkedPage
| EditFilters (w : Filters).

Section Handlers.
Variable re_other : string → option (string → bool).

(** The handler of an action.  A click runs [_select_row(idx)], whose call
    of [_update_info] reads [self.df.loc[idx]]: [KeyError] when [idx] is not
    an index of the table, the selection already set. *)
Definition handle (a : action) (s : Gallery) : completion Gallery :=
  match a with
  | ApplyFilters => ends_with_apply_filters re_other true s
  | MarkAllFiltered => _mark_all_filtered re_other s
  | ClearMarked => _clear_marked re_other s
  | ToggleMark => _toggle_mark re_other s
  | ClickThumbnail idx =>
      if idx <? length (df s) then Completes (_select_row idx s)
      else Raises (_select_row idx s)
  | TickSameName =>
      _toggle_same_name_filter re_other (with_same_name (negb (same_name_var s)) s)
  | NextPage => Completes (_next_page s)
  | PrevPage => Completes (_prev_page s)
  | NextMarkedPage => Completes (_next_marked_page s)
  | PrevMarkedPage => Completes (_prev_marked_page s)
  | EditFilters w => Completes (with_widgets w s)
  end.

(** The panel after an action: only an edit changes it. *)
Definition widgets_after (a : action) (s : Gallery) : Filters :=
  match a with
  | EditFilters w => w
  | _ => widgets s
  end.

End Handlers.

(** *** Labels *)

(** [self.page_label.config(text=f"Page {self.page + 1} / {total_pages}")] *)
Definition _update_page_label (s : Gallery) : string :=
  "Page " ++ pretty (page s + 1)%Z ++ " / "
  ++ pretty (total_pages (length (filtered_df s))).

(** [self.count_label.config(text=f"Filtered: {len(self.filtered_df)} / {len(self.df)}")] *)
Definition _update_counts (s : Gallery) : string :=
  "Filtered: " ++ pretty (length (filtered_df s)) ++ " / " ++ pretty (length (df s)).

(** The rows of a frame, their marks set aside. *)
Definition unmarked_rows (d : frame) : list Row :=
  (λ ir : nat * Row, set_marked false ir.2) <$> d.

(** What every state of the running gallery satisfies: the page of the
    filtered view is one of its pages, the page of the marked view is not
    negative, and the filtered frame holds rows of the table, in table
    order.  The marks are set aside, because an action that raises after it
    has written a mark leaves the frame as it was computed before. *)
Definition gallery_ok (s : Gallery) : Prop :=
  (0 ≤ page s ≤ max_page (length (filtered_df s)))%Z
  ∧ (0 ≤ marked_page s)%Z
  ∧ unmarked_rows (filtered_df s) `sublist_of` (set_marked false <$> df s).



(** A table file with the required columns, a numeric and a categorical
    column, and no [__marked__] column. *)
Definition sample_csv : Csv :=
  {| csv_columns := ["Unnamed: 0"; "dir"; "file"; "score"; "label"];
     csv_numeric := ["Unnamed: 0"; "score"];
     csv_rows :=
       [ sample_row "cats" "a.png" true (FFin (1 # 2)) (Some "cat");
         sample_row "Dogs" "ba.png" true (FFin (3 # 2)) (Some "dog");
         sample_row "cats" "c.png" false FNaN None ] |}.

(** A decoder that knows two image files. *)
Definition sample_decode (path : string) : option ThumbnailCache.PhotoImage :=
  if String.eqb path "cats/a.png" then Some 11
  else if String.eqb path "Dogs/ba.png" then Some 12
  else None.

(** A cache with one entry, put when the clock read 0.1 (the nearest
    float). *)
Definition threshold_cache : ThumbnailCache.t :=
  ThumbnailCache.put "a.png" 1 0x1.999999999999ap-4 (ThumbnailCache.init 2).

(** A frame whose rows are the joined path, or nothing for a row with a
    cell that is not a string, and whose labels are strings. *)
Definition raw_frame : list (string * option string) :=
  [("r0", Some "cats/a.png"); ("r1", None); ("r2", Some "Dogs/ba.png")].

(** A cache of capacity 2 after two puts, at times 0 and 5. *)
Definition sample_cache : ThumbnailCache.t :=
  ThumbnailCache.put "b.png" 2 5
    (ThumbnailCache.put "a.png" 1 0 (ThumbnailCache.init 2)).

(** * Properties *)

(** ** Ordered dictionaries *)

Section OrderedDictFacts.
Context {V : Type}.
Implicit Types (d : odict V) (k : string) (v : V).

Lemma od_lookup_None k d : od_lookup k d = None ↔ k ∉ od_keys d.
Proof.
  induction d as [|[k' v'] d IH]; simpl.
  - split; [intros _; apply not_elem_of_nil | done].
  - rewrite not_elem_of_cons. destruct (String.eqb_spec k k') as [->|Hne].
    + split; [done | intros [? _]; done].
    + rewrite IH. tauto.
Qed.

Lemma od_lookup_Some_elem k v d : od_lookup k d = Some v → k ∈ od_keys d.
Proof.
  intros H. destruct (decide (k ∈ od_keys d)) as [|Hn]; [done|].
  apply od_lookup_None in Hn. congruence.
Qed.

Lemma od_lookup_app k d1 d2 :
  od_lookup k (d1 ++ d2) =
  match od_lookup k d1 with Some v => Some v | None => od_lookup k d2 end.
Proof.
  induction d1 as [|[k' v'] d1 IH]; simpl; [done|].
  by destruct (String.eqb k k').
Qed.

Lemma od_lookup_setitem k v d : od_lookup k (od_setitem k v d) = Some v.
Proof.
  induction d as [|[k' v'] d IH]; simpl.
  - by rewrite String.eqb_refl.
  - destruct (String.eqb_spec k k') as [->|Hne]; simpl.
    + by rewrite String.eqb_refl.
    + by destruct (String.eqb_spec k k').
Qed.

Lemma od_delitem_setitem k v d : od_delitem k (od_setitem k v d) = od_delitem k d.
Proof.
  induction d as [|[k' v'] d IH]; simpl.
  - by rewrite String.eqb_refl.
  - destruct (String.eqb_spec k k') as [->|Hne]; simpl.
    + by rewrite String.eqb_refl.
    + destruct (String.eqb_spec k k'); [done|]. by rewrite IH.
Qed.

Lemma od_delitem_NoDup k d : NoDup (od_keys d) → NoDup (od_keys (od_delitem k d)).
Proof.
  induction d as [|[k' v'] d IH]; simpl; [done|].
  rewrite NoDup_cons. intros [Hk Hd].
  destruct (String.eqb_spec k k'); [done|].
  simpl. apply NoDup_cons. split; [|by apply IH].
  intros Hin. apply Hk. clear -Hin.
  induction d as [|[k2 v2] d IH]; simpl in *; [done|].
  destruct (String.eqb k k2); [by right|].
  apply elem_of_cons in Hin as [->|Hin]; [by left | right; by apply IH].
Qed.

Lemma filter_ne_notin k (l : list string) : k ∉ l → filter (λ x, x ≠ k) l = l.
Proof.
  induction l as [|x l IH]; [done|].
  rewrite not_elem_of_cons. intros [Hx Hl].
  rewrite filter_cons_True by done. by rewrite IH.
Qed.

Lemma od_keys_delitem k d :
  NoDup (od_keys d) → od_keys (od_delitem k d) = filter (λ x, x ≠ k) (od_keys d).
Proof.
  induction d as [|[k' v'] d IH]; simpl; [done|].
  rewrite NoDup_cons. intros [Hk Hd].
  destruct (String.eqb_spec k k') as [->|Hne].
  - rewrite filter_cons_False by (intros ?; done).
    by rewrite filter_ne_notin.
  - rewrite filter_cons_True by done. simpl. by rewrite IH.
Qed.

Lemma od_lookup_delitem k d : NoDup (od_keys d) → od_lookup k (od_delitem k d) = None.
Proof.
  intros Hd. apply od_lookup_None. rewrite od_keys_delitem by done.
  rewrite list_elem_of_filter. tauto.
Qed.

Lemma od_keys_move_to_end k v d :
  NoDup (od_keys d) → od_lookup k d = Some v →
  od_keys (od_move_to_end k d) = ThumbnailCache.touch (od_keys d) k
  ∧ od_lookup k (od_move_to_end k d) = Some v.
Proof.
  intros Hd Hk. unfold od_move_to_end, ThumbnailCache.touch. rewrite Hk. split.
  - unfold od_keys. rewrite fmap_app. simpl. f_equal. by apply od_keys_delitem.
  - rewrite od_lookup_app, od_lookup_delitem by done. simpl.
    by rewrite String.eqb_refl.
Qed.

Lemma od_keys_setitem_move k v d :
  NoDup (od_keys d) →
  od_keys (od_move_to_end k (od_setitem k v d)) = ThumbnailCache.touch (od_keys d) k.
Proof.
  intros Hd. unfold od_move_to_end, ThumbnailCache.touch.
  rewrite od_lookup_setitem, od_delitem_setitem.
  unfold od_keys. rewrite fmap_app. simpl. f_equal. by apply od_keys_delitem.
Qed.

End OrderedDictFacts.

(** ** Thumbnail cache: lookups *)

Section CacheLookups.
Import ThumbnailCache.

Lemma od_lookup_delitem_ne {V} (k k' : string) (d : odict V) :
  k ≠ k' → od_lookup k (od_delitem k' d) = od_lookup k d.
Proof.
  intros Hne. induction d as [|[k2 v2] d IH]; simpl; [done|].
  destruct (String.eqb_spec k' k2) as [->|Hne2].
  - by destruct (String.eqb_spec k k2).
  - simpl. by rewrite IH.
Qed.

Lemma od_lookup_delitems {V} (ks : list string) : ∀ (d : odict V) (k : string),
  NoDup (od_keys d) →
  od_lookup k (fold_left (λ d k, od_delitem k d) ks d)
  = if bool_decide (k ∈ ks) then None else od_lookup k d.
Proof.
  induction ks as [|k' ks IH]; intros d k Hnd; simpl; [done|].
  rewrite IH by (by apply od_delitem_NoDup).
  destruct (decide (k = k')) as [->|Hne].
  - rewrite od_lookup_delitem by done.
    rewrite (bool_decide_eq_true_2 (k' ∈ k' :: ks)) by (by left).
    by case_bool_decide.
  - rewrite od_lookup_delitem_ne by done.
    repeat case_bool_decide; try done.
    + exfalso. apply H0. by right.
    + exfalso. apply elem_of_cons in H0 as [?|?]; done.
Qed.

Lemma od_lookup_elem {V} (k : string) (v : V) (d : odict V) :
  NoDup (od_keys d) → (k, v) ∈ d ↔ od_lookup k d = Some v.
Proof.
  induction d as [|[k' v'] d IH]; simpl.
  - intros _. split; [intros H; by apply elem_of_nil in H | done].
  - rewrite NoDup_cons. intros [Hk Hnd]. rewrite elem_of_cons.
    destruct (String.eqb_spec k k') as [->|Hne].
    + split.
      * intros [[= ->]|Hin]; [done|].
        exfalso. apply Hk. apply list_elem_of_fmap. by exists (k', v).
      * intros [= ->]. by left.
    + rewrite <- IH by done. split; [intros [[= -> ->]|?]; done | by right].
Qed.

(** A [get] leaves every stored time as it was. *)
Lemma get_keeps_times (p k : string) (c : t) :
  NoDup (od_keys (cache c)) →
  od_lookup k (cache (get p c).2) = od_lookup k (cache c).
Proof.
  intros Hnd. unfold get.
  destruct (od_lookup p (cache c)) as [e|] eqn:Hp; [|done].
  cbn [snd cache]. unfold od_move_to_end. rewrite Hp, od_lookup_app.
  destruct (decide (k = p)) as [->|Hne].
  - rewrite od_lookup_delitem by done. simpl. by rewrite String.eqb_refl.
  - rewrite od_lookup_delitem_ne by done.
    destruct (od_lookup k (cache c)); [done|]. simpl.
    by destruct (String.eqb_spec k p).
Qed.

Lemma get_lookup (p : string) (c : t) :
  NoDup (od_keys (cache c)) →
  (get p c).1 = fst <$> od_lookup p (cache c)
  ∧ ∀ k, od_lookup k (cache (get p c).2) = od_lookup k (cache c).
Proof.
  intros Hnd. split; [|intros k; by apply get_keeps_times].
  unfold get. destruct (od_lookup p (cache c)) as [e|] eqn:Hp; [|done].
  cbn [fst]. by destruct (od_keys_move_to_end p e (cache c) Hnd Hp) as [_ ->].
Qed.

Lemma cleanup_loop_drop (n : nat) (d : odict entry) :
  cleanup_loop n d = drop (length d - n) d.
Proof.
  induction d as [|e d IH]; [done|].
  cbn [cleanup_loop]. destruct (Nat.ltb_spec n (length (e :: d))) as [Hlt|Hge].
  - rewrite IH. cbn [length] in *.
    replace (S (length d) - n) with (S (length d - n)) by lia. done.
  - cbn [length] in *. replace (S (length d) - n) with 0 by lia. done.
Qed.

Lemma put_cache (p : string) (i : PhotoImage) (now : float) (c : t) :
  cache (put p i now c)
  = let d := od_delitem p (cache c) ++ [(p, (i, now))] in
    drop (length d - max_size c) d.
Proof.
  unfold put, _cleanup. cbn [cache max_size]. rewrite cleanup_loop_drop.
  unfold od_move_to_end. by rewrite od_lookup_setitem, od_delitem_setitem.
Qed.

Lemma put_NoDup (p : string) (i : PhotoImage) (now : float) (c : t) :
  NoDup (od_keys (cache c)) → NoDup (od_keys (cache (put p i now c))).
Proof.
  intros Hnd. rewrite put_cache. cbn zeta.
  assert (H : NoDup (od_keys (od_delitem p (cache c) ++ [(p, (i, now))]))).
  { unfold od_keys. rewrite fmap_app. apply NoDup_app. split_and!.
    - by apply od_delitem_NoDup.
    - intros x Hx Hp. apply list_elem_of_singleton in Hp. simpl in Hp. subst x.
      fold (od_keys (od_delitem p (cache c))) in Hx.
      rewrite od_keys_delitem in Hx by done.
      apply list_elem_of_filter in Hx as [? _]. done.
    - apply NoDup_singleton. }
  eapply sublist_NoDup; [exact H|]. unfold od_keys. apply fmap_sublist, sublist_drop.
Qed.

(** What a [put] leaves under a key: what it has put, or what was there. *)
Lemma put_lookup (p k : string) (i : PhotoImage) (now : float) (c : t) (e : entry) :
  NoDup (od_keys (cache c)) →
  od_lookup k (cache (put p i now c)) = Some e →
  (k = p ∧ e = (i, now)) ∨ (k ≠ p ∧ od_lookup k (cache c) = Some e).
Proof.
  intros Hnd H.
  apply od_lookup_elem in H; [|by apply put_NoDup].
  rewrite put_cache in H. cbn zeta in H.
  assert (Hin : (k, e) ∈ od_delitem p (cache c) ++ [(p, (i, now))]).
  { eapply sublist_subseteq; [apply sublist_drop | exact H]. }
  apply elem_of_app in Hin as [Hin|Hin].
  - right. apply od_lookup_elem in Hin; [|by apply od_delitem_NoDup].
    destruct (decide (k = p)) as [->|Hne].
    + rewrite od_lookup_delitem in Hin by done. done.
    + by rewrite od_lookup_delitem_ne in Hin.
  - left. apply list_elem_of_singleton in Hin. by injection Hin as -> ->.
Qed.

End CacheLookups.

(** ** Thumbnail cache: capacity and recency *)

Section Recency.
Import ThumbnailCache.
Implicit Types (r : list string) (k : string) (n : nat).

Lemma most_recent_length n r : length (most_recent n r) = n `min` length r.
Proof. unfold most_recent. rewrite length_drop. lia. Qed.

Lemma most_recent_all n r : length r ≤ n → most_recent n r = r.
Proof.
  intros H. unfold most_recent. replace (length r - n) with 0 by lia. done.
Qed.

Lemma most_recent_app_ge n r1 r2 :
  n ≤ length r2 → most_recent n (r1 ++ r2) = most_recent n r2.
Proof.
  intros H. unfold most_recent. rewrite length_app.
  replace (length r1 + length r2 - n) with (length r1 + (length r2 - n)) by lia.
  apply drop_app_add.
Qed.

Lemma most_recent_NoDup n r : NoDup r → NoDup (most_recent n r).
Proof.
  intros H. unfold most_recent.
  rewrite <- (take_drop (length r - n) r) in H.
  by apply NoDup_app in H as (_ & _ & H).
Qed.

Lemma touch_NoDup r k : NoDup r → NoDup (touch r k).
Proof.
  intros H. unfold touch. apply NoDup_app. split_and!.
  - by apply NoDup_filter.
  - intros x Hx Hk. apply list_elem_of_filter in Hx as [Hne _].
    apply list_elem_of_singleton in Hk. done.
  - apply NoDup_singleton.
Qed.

Lemma filter_ne_length r k :
  NoDup r → k ∈ r → S (length (filter (λ x, x ≠ k) r)) = length r.
Proof.
  induction r as [|x r IH]; intros Hnd Hin; [by apply elem_of_nil in Hin|].
  apply NoDup_cons in Hnd as [Hx Hnd].
  destruct (decide (x = k)) as [->|Hne].
  - rewrite filter_cons_False by (intros ?; done).
    rewrite filter_ne_notin by done. done.
  - rewrite filter_cons_True by done. simpl. f_equal. apply IH; [done|].
    apply elem_of_cons in Hin as [->|]; done.
Qed.

Lemma touch_length_in r k : NoDup r → k ∈ r → length (touch r k) = length r.
Proof.
  intros Hnd Hin. unfold touch. rewrite length_app. simpl.
  rewrite <- (filter_ne_length r k) by done. lia.
Qed.

(** Evicting down to [n] keys commutes with touching a key. *)
Lemma touch_most_recent n r k :
  NoDup r → most_recent n (touch (most_recent n r) k) = most_recent n (touch r k).
Proof.
  intros Hnd.
  pose proof (most_recent_length n r) as Hlen.
  pose proof (take_drop (length r - n) r) as Hsplit.
  fold (most_recent n r) in Hsplit.
  set (a := take (length r - n) r) in *. set (b := most_recent n r) in *.
  assert (Ha : length r ≤ n → a = []).
  { intros Hle. unfold a. replace (length r - n) with 0 by lia. done. }
  clearbody a b. subst r. rewrite length_app in Hlen, Ha.
  apply NoDup_app in Hnd as (Hna & Hab & Hnb).
  unfold touch. rewrite filter_app, <- (assoc_L (++)).
  destruct (decide (k ∈ b)) as [Hin|Hout].
  - assert (k ∉ a) as Hka by (intros ?; by eapply Hab).
    rewrite (filter_ne_notin k a) by done.
    pose proof (filter_ne_length b k Hnb Hin) as Hfl.
    destruct (decide (n ≤ length b)) as [Hge|Hlt].
    + rewrite (most_recent_app_ge n a); [done|]. rewrite length_app. simpl. lia.
    + rewrite Ha by lia. done.
  - rewrite (filter_ne_notin k b) by done.
    destruct (decide (n ≤ length (b ++ [k]))) as [Hge|Hlt].
    + by rewrite (most_recent_app_ge n (filter _ a)).
    + rewrite length_app in Hlt. simpl in Hlt. rewrite Ha by lia. done.
Qed.

Lemma cleanup_loop_keys n (d : odict entry) :
  od_keys (cleanup_loop n d) = most_recent n (od_keys d).
Proof.
  induction d as [|e d IH]; [done|].
  cbn [cleanup_loop]. destruct (Nat.ltb_spec n (length (e :: d))) as [Hlt|Hge].
  - rewrite IH. unfold most_recent, od_keys. cbn [fmap list_fmap length] in *.
    rewrite !length_fmap.
    replace (S (length d) - n) with (S (length d - n)) by lia. done.
  - rewrite most_recent_all; [done|]. unfold od_keys. by rewrite length_fmap.
Qed.

(** One call: the keys of the code's cache move as the specification's. *)
Lemma step_lru n c o :
  max_size c = n → NoDup (od_keys (cache c)) →
  max_size (step c o) = n
  ∧ NoDup (od_keys (cache (step c o)))
  ∧ od_keys (cache (step c o)) = lru_step n (od_keys (cache c)) o.
Proof.
  intros Hmax Hnd. destruct o as [p|p i now]; simpl.
  - unfold get. destruct (od_lookup p (cache c)) as [e|] eqn:Hp; cbn [snd cache max_size].
    + destruct (od_keys_move_to_end p e (cache c) Hnd Hp) as [Hk _].
      rewrite Hk, bool_decide_eq_true_2 by (by eapply od_lookup_Some_elem).
      split_and!; [done | by apply touch_NoDup | done].
    + rewrite bool_decide_eq_false_2 by (by apply od_lookup_None). done.
  - unfold put, _cleanup. cbn [cache max_size].
    rewrite cleanup_loop_keys, od_keys_setitem_move, Hmax by done.
    split_and!; [done | | done].
    apply most_recent_NoDup. by apply touch_NoDup.
Qed.

Lemma run_lru n ops : ∀ c,
  max_size c = n → NoDup (od_keys (cache c)) →
  max_size (run ops c) = n
  ∧ NoDup (od_keys (cache (run ops c)))
  ∧ od_keys (cache (run ops c)) = fold_left (lru_step n) ops (od_keys (cache c)).
Proof.
  induction ops as [|o ops IH]; intros c Hmax Hnd; [done|].
  simpl. destruct (step_lru n c o Hmax Hnd) as (Hm & Hn & Hk).
  rewrite <- Hk. by apply IH.
Qed.

(** One call of the specification's cache, seen on the full recency
    order. *)
Lemma lru_step_most_recent n r o :
  NoDup r →
  lru_step n (most_recent n r) o
  = most_recent n (fold_left touch (lru_touched (most_recent n r) o) r).
Proof.
  intros Hnd. destruct o as [p|p i now]; simpl.
  - case_bool_decide as Hin; simpl; [|done].
    rewrite <- touch_most_recent by done. symmetry. apply most_recent_all.
    rewrite touch_length_in; [|by apply most_recent_NoDup|done].
    rewrite most_recent_length. lia.
  - by apply touch_most_recent.
Qed.

Lemma lru_touched_NoDup r r' o : NoDup r → NoDup (fold_left touch (lru_touched r' o) r).
Proof.
  intros Hnd. destruct o as [p|p i now]; simpl; [|by apply touch_NoDup].
  case_bool_decide; simpl; [by apply touch_NoDup | done].
Qed.

Lemma lru_most_recent n ops : ∀ r,
  NoDup r →
  fold_left (lru_step n) ops (most_recent n r)
  = most_recent n (fold_left touch (lru_touches n (most_recent n r) ops) r).
Proof.
  induction ops as [|o ops IH]; intros r Hnd; [done|].
  cbn [fold_left lru_touches]. rewrite fold_left_app.
  rewrite (lru_step_most_recent n r o Hnd).
  apply IH. by apply lru_touched_NoDup.
Qed.

(** The image under a key of the cache is the one its latest [put]
    carried. *)
Lemma run_images ops : ∀ c (g : string → option PhotoImage),
  NoDup (od_keys (cache c)) →
  (∀ k e, od_lookup k (cache c) = Some e → g k = Some e.1) →
  ∀ k e, od_lookup k (cache (run ops c)) = Some e →
         fold_left (put_image k) ops (g k) = Some e.1.
Proof.
  induction ops as [|o ops IH]; intros c g Hnd Hg k e Hk; [by apply Hg|].
  simpl in *.
  apply (IH (step c o) (λ k, put_image k (g k) o)); [| |done].
  - by destruct (step_lru (max_size c) c o eq_refl Hnd) as (_ & ? & _).
  - intros k' e' H'. destruct o as [p|p i now]; simpl in *.
    + apply Hg. by rewrite get_keeps_times in H'.
    + apply (put_lookup _ _ _ _ _ _ Hnd) in H' as [[-> ->]|[Hne H']].
      * by rewrite String.eqb_refl.
      * destruct (String.eqb_spec k' p); [done|]. by apply Hg.
Qed.

Lemma cleanup_loop_unfold n (d : odict entry) :
  cleanup_loop n d
  = if n <? length d then cleanup_loop n (od_popitem_first d) else d.
Proof. destruct d as [|e d]; [by destruct n | done]. Qed.

(** The keys after a call depend on the keys before it and on the key of
    the call, not on images or times. *)
Lemma step_keys_same (c1 c2 : t) (o1 o2 : op) :
  max_size c1 = max_size c2 → NoDup (od_keys (cache c1)) →
  od_keys (cache c1) = od_keys (cache c2) → same_call o1 o2 →
  max_size (step c1 o1) = max_size (step c2 o2)
  ∧ NoDup (od_keys (cache (step c1 o1)))
  ∧ od_keys (cache (step c1 o1)) = od_keys (cache (step c2 o2)).
Proof.
  intros Hmax Hnd Hkeys Hcall.
  assert (Hnd2 : NoDup (od_keys (cache c2))) by (by rewrite <- Hkeys).
  destruct o1 as [p|p i1 t1], o2 as [q|q i2 t2]; simpl in Hcall; try done; subst q.
  - simpl. unfold get.
    destruct (od_lookup p (cache c1)) as [e1|] eqn:H1;
      destruct (od_lookup p (cache c2)) as [e2|] eqn:H2; cbn [snd cache max_size].
    + destruct (od_keys_move_to_end p e1 _ Hnd H1) as [-> _].
      destruct (od_keys_move_to_end p e2 _ Hnd2 H2) as [-> _].
      rewrite <- Hkeys. split_and!; [done | by apply touch_NoDup | done].
    + exfalso. apply od_lookup_None in H2. apply H2. rewrite <- Hkeys.
      by eapply od_lookup_Some_elem.
    + exfalso. apply od_lookup_None in H1. apply H1. rewrite Hkeys.
      by eapply od_lookup_Some_elem.
    + done.
  - simpl. unfold put, _cleanup. cbn [cache max_size].
    rewrite !cleanup_loop_keys, !od_keys_setitem_move by done.
    rewrite <- Hkeys, <- Hmax. split_and!; [done | | done].
    apply most_recent_NoDup. by apply touch_NoDup.
Qed.

Lemma run_keys_same (ops1 ops2 : list op) :
  Forall2 same_call ops1 ops2 → ∀ c1 c2,
  max_size c1 = max_size c2 → NoDup (od_keys (cache c1)) →
  od_keys (cache c1) = od_keys (cache c2) →
  od_keys (cache (run ops1 c1)) = od_keys (cache (run ops2 c2)).
Proof.
  induction 1 as [|o1 o2 ops1 ops2 Ho _ IH]; intros c1 c2 Hmax Hnd Hkeys; [done|].
  simpl. destruct (step_keys_same c1 c2 o1 o2 Hmax Hnd Hkeys Ho) as (? & ? & ?).
  by apply IH.
Qed.

Lemma lru_touches_puts n (kvs : list (string * (PhotoImage * float))) : ∀ r,
  lru_touches n r (puts kvs) = kvs.*1.
Proof.
  induction kvs as [|kv kvs IH]; intros r; [done|].
  simpl. f_equal. apply IH.
Qed.

Lemma recency_NoDup_id (ks : list string) : ∀ r,
  NoDup (r ++ ks) → fold_left touch ks r = r ++ ks.
Proof.
  induction ks as [|k ks IH]; intros r H; simpl; [by rewrite app_nil_r|].
  assert (k ∉ r) as Hk.
  { apply NoDup_app in H as (_ & H & _). intros Hin. apply (H k Hin). by left. }
  unfold touch at 2. rewrite filter_ne_notin by done.
  rewrite IH; rewrite <- (assoc_L (++)); done.
Qed.

End Recency.

(** C1.  Started empty with capacity [N], after any sequence of [get] and
    [put] calls the cache holds at most [N] entries, and its keys are, in
    order, those of the specification's cache [lru]: a [put], and a [get] of a
    key that is held, move the key to the most-recently-used end, and a [put]
    evicts from the other end.  These are the [N] most recent keys of the
    recency order of the touches.  A [get] hits exactly on the keys that are
    held, and returns the image of the latest [put] of the key.  The keys
    present do not depend on the images or on the times stored.  In
    particular, after [N + k] distinct keys have been put, whatever the images
    and the times stored with them, exactly [N] keys are present: the last
    [N] that were put. *)
Theorem lru_capacity_and_recency (N : nat) :
  (∀ ops : list ThumbnailCache.op,
     let c := ThumbnailCache.run ops (ThumbnailCache.init N) in
     length (ThumbnailCache.cache c) ≤ N
     ∧ od_keys (ThumbnailCache.cache c) = ThumbnailCache.lru N ops
     ∧ ThumbnailCache.lru N ops
       = ThumbnailCache.most_recent N
           (ThumbnailCache.recency (ThumbnailCache.lru_touches N [] ops)))
  ∧ (∀ (ops : list ThumbnailCache.op) (p : string),
       (ThumbnailCache.get p (ThumbnailCache.run ops (ThumbnailCache.init N))).1
       = if bool_decide (p ∈ ThumbnailCache.lru N ops)
         then ThumbnailCache.last_put p ops else None)
  ∧ (∀ ops1 ops2 : list ThumbnailCache.op,
       Forall2 ThumbnailCache.same_call ops1 ops2 →
       od_keys (ThumbnailCache.cache (ThumbnailCache.run ops1 (ThumbnailCache.init N)))
       = od_keys (ThumbnailCache.cache (ThumbnailCache.run ops2 (ThumbnailCache.init N))))
  ∧ (∀ (k : nat) (kvs : list (string * (ThumbnailCache.PhotoImage * float))),
       NoDup kvs.*1 → length kvs = N + k →
       let c := ThumbnailCache.run (ThumbnailCache.puts kvs) (ThumbnailCache.init N) in
       length (ThumbnailCache.cache c) = N
       ∧ od_keys (ThumbnailCache.cache c) = drop k kvs.*1).
Proof.
  assert (Hrun : ∀ ops,
    NoDup (od_keys (ThumbnailCache.cache (ThumbnailCache.run ops (ThumbnailCache.init N))))
    ∧ od_keys (ThumbnailCache.cache (ThumbnailCache.run ops (ThumbnailCache.init N)))
      = ThumbnailCache.lru N ops).
  { intros ops.
    destruct (run_lru N ops (ThumbnailCache.init N) eq_refl) as (_ & Hn & Hk);
      [apply NoDup_nil_2 | done]. }
  assert (Hrec : ∀ ops,
    ThumbnailCache.lru N ops
    = ThumbnailCache.most_recent N
        (ThumbnailCache.recency (ThumbnailCache.lru_touches N [] ops))).
  { intros ops. apply (lru_most_recent N ops []), NoDup_nil_2. }
  split_and!.
  - intros ops c. split_and!; [|apply Hrun|apply Hrec].
    rewrite <- (length_fmap fst). fold (od_keys (ThumbnailCache.cache c)).
    unfold c. rewrite (proj2 (Hrun ops)), Hrec, most_recent_length. lia.
  - intros ops p. destruct (Hrun ops) as [Hnd Hk].
    destruct (get_lookup p _ Hnd) as [-> _]. rewrite <- Hk.
    destruct (od_lookup p _) as [e|] eqn:Hp; simpl.
    + rewrite bool_decide_eq_true_2 by (by eapply od_lookup_Some_elem).
      symmetry.
      apply (run_images ops (ThumbnailCache.init N) (λ _, None)
               NoDup_nil_2 ltac:(done) p e Hp).
    + rewrite bool_decide_eq_false_2 by (by apply od_lookup_None). done.
  - intros ops1 ops2 Hsame.
    apply run_keys_same; [done | done | apply NoDup_nil_2 | done].
  - intros k kvs Hnd Hlen c.
    assert (Hk : od_keys (ThumbnailCache.cache c) = drop k kvs.*1).
    { unfold c. rewrite (proj2 (Hrun _)), Hrec, lru_touches_puts.
      unfold ThumbnailCache.recency.
      rewrite recency_NoDup_id by done. simpl.
      unfold ThumbnailCache.most_recent. rewrite length_fmap. f_equal. lia. }
    split; [|done].
    rewrite <- (length_fmap fst). fold (od_keys (ThumbnailCache.cache c)).
    rewrite Hk, length_drop, length_fmap. lia.
Qed.

(** ** Thumbnail cache: purge by age *)

Section Purge.
Import ThumbnailCache.

(** What [purge_unused] does: an entry goes exactly when the test
    [now - t > max_age] holds of the time [t] stored by the [put] that wrote
    it. *)
Lemma purge_unused_lookup (max_age now : float) (c : t) (k : string) :
  NoDup (od_keys (cache c)) →
  od_lookup k (cache (purge_unused max_age now c))
  = match od_lookup k (cache c) with
    | Some e => if expired max_age now e then None else Some e
    | None => None
    end.
Proof.
  intros Hnd. unfold purge_unused. cbn [cache].
  rewrite od_lookup_delitems by done.
  destruct (od_lookup k (cache c)) as [e|] eqn:Hk.
  - apply od_lookup_elem in Hk; [|done].
    case_bool_decide as Hin.
    + apply list_elem_of_fmap in Hin as ([k' e'] & -> & Hin).
      apply list_elem_of_filter in Hin as [Hexp Hin]. simpl in *.
      apply od_lookup_elem in Hin; [|done]. apply od_lookup_elem in Hk; [|done].
      assert (e' = e) as -> by congruence.
      by destruct (expired max_age now e).
    + destruct (expired max_age now e) eqn:He; [|done].
      exfalso. apply Hin. apply list_elem_of_fmap. exists (k, e). split; [done|].
      apply list_elem_of_filter. simpl. by rewrite He.
  - by case_bool_decide.
Qed.

End Purge.

(** C2.  The code at the input where it departs from the claim: an image is
    put at time 0 and fetched again afterwards (a hit, at time 890 say; [get]
    does not read the clock); [purge_unused] with the default threshold of
    900 at time 901 removes the entry, although it was last touched 11 time
    units before. *)
Theorem purge_unused_drops_recently_fetched_entry :
  let c1 := ThumbnailCache.put "a.png" 7 0 (ThumbnailCache.init MAX_THUMB_CACHE) in
  let hit := ThumbnailCache.get "a.png" c1 in
  hit.1 = Some 7
  ∧ od_lookup "a.png" (ThumbnailCache.cache hit.2) = Some (7, 0%float)
  ∧ ThumbnailCache.cache
      (ThumbnailCache.purge_unused ThumbnailCache.default_max_age 901 hit.2) = [].
Proof. vm_compute. done. Qed.

(** ** Filter engine *)

Section GalleryFacts.
Context (re_other : string → option (string → bool)).

Local Abbreviation text_step := (text_step re_other).
Local Abbreviation text_match := (text_match re_other).
Local Abbreviation filter_frame := (filter_frame re_other).
Local Abbreviation queries_compile := (queries_compile re_other).
Local Abbreviation passes_unmarked_filters := (passes_unmarked_filters re_other).
Local Abbreviation _apply_filters := (_apply_filters re_other).
Local Abbreviation _toggle_mark := (_toggle_mark re_other).
Local Abbreviation _mark_all_filtered := (_mark_all_filtered re_other).
Local Abbreviation _clear_marked := (_clear_marked re_other).

Lemma numeric_steps_elem (nf : list (string * (fval * fval))) : ∀ (d : frame) ir,
  ir ∈ fold_left numeric_step nf d
  ↔ ir ∈ d ∧ ∀ f, f ∈ nf →
      fle f.2.1 (num_cell ir.2 f.1) && fle (num_cell ir.2 f.1) f.2.2 = true.
Proof.
  induction nf as [|f nf IH]; intros d ir; simpl.
  - split; [intros H; split; [done|] | tauto].
    intros f Hf. by apply elem_of_nil in Hf.
  - rewrite IH. unfold numeric_step. rewrite list_elem_of_filter.
    rewrite Is_true_true. split.
    + intros [[Hf Hd] Hnf]. split; [done|].
      intros f' [->|Hin]%elem_of_cons; [done | by apply Hnf].
    + intros [Hd Hall]. split_and!; [apply Hall; by left | done |].
      intros f' Hin. apply Hall. by right.
Qed.

Lemma category_steps_elem (cf : list (string * string)) : ∀ (d : frame) ir,
  ir ∈ fold_left category_step cf d
  ↔ ir ∈ d ∧ ∀ f, f ∈ cf → f.2 = "All" ∨ cat_equals ir.2 f.1 f.2 = true.
Proof.
  induction cf as [|f cf IH]; intros d ir; simpl.
  - split; [intros H; split; [done|] | tauto].
    intros f Hf. by apply elem_of_nil in Hf.
  - rewrite IH. unfold category_step.
    destruct (String.eqb_spec f.2 "All") as [Hall|Hne].
    + split.
      * intros [Hd Hcf]. split; [done|].
        intros f' [->|Hin]%elem_of_cons; [by left | by apply Hcf].
      * intros [Hd H]. split; [done|]. intros f' Hin. apply H. by right.
    + rewrite list_elem_of_filter, Is_true_true. split.
      * intros [[Hf Hd] Hcf]. split; [done|].
        intros f' [->|Hin]%elem_of_cons; [by right | by apply Hcf].
      * intros [Hd H]. split_and!; [|done|].
        -- destruct (H f) as [?|?]; [by left | done | done].
        -- intros f' Hin. apply H. by right.
Qed.

Lemma text_step_elem (var : string) (field : Row → string) (d d' : frame) ir :
  text_step var field d = Some d' →
  ir ∈ d' ↔ ir ∈ d ∧ text_match var (field ir.2) = true.
Proof.
  unfold text_step, text_match.
  destruct (String.eqb (lower (strip var)) "").
  - intros [= ->]. simpl. tauto.
  - destruct (str_contains re_other (lower (strip var))) as [m|]; [|done].
    simpl. intros [= <-]. rewrite list_elem_of_filter, Is_true_true. tauto.
Qed.

Lemma hide_step_elem (hide : bool) (d : frame) ir :
  ir ∈ hide_step hide d ↔ ir ∈ d ∧ (hide = true → marked ir.2 = false).
Proof.
  unfold hide_step. destruct hide.
  - rewrite list_elem_of_filter, Is_true_true, negb_true_iff. tauto.
  - split; [intros H; split; [done|]; done | tauto].
Qed.

(** The rows of the filtered frame: those of the table that pass every
    filter of the panel. *)
Lemma filter_frame_elem (w : Filters) (df : list Row) (d : frame) ir :
  filter_frame w df = Some d →
  ir ∈ d ↔ ir ∈ indexed df ∧ passes_unmarked_filters w ir.2
           ∧ (hide_marked_var w = true → marked ir.2 = false).
Proof.
  unfold filter_frame, passes_unmarked_filters. intros H.
  destruct (text_step (dir_search_var w) dir _) as [d1|] eqn:H1; [|done].
  simpl in H.
  destruct (text_step (file_search_var w) file d1) as [d2|] eqn:H2; [|done].
  simpl in H. injection H as <-.
  rewrite hide_step_elem, (text_step_elem _ _ _ _ _ H2), (text_step_elem _ _ _ _ _ H1).
  rewrite category_steps_elem, numeric_steps_elem. tauto.
Qed.

Lemma sublist_fold_left {A B} (step : list A → B → list A) (fs : list B) :
  (∀ d f, step d f `sublist_of` d) → ∀ d, fold_left step fs d `sublist_of` d.
Proof.
  intros Hstep. induction fs as [|f fs IH]; intros d; simpl; [done|].
  etrans; [apply IH | apply Hstep].
Qed.

Lemma text_step_sublist (var : string) (field : Row → string) (d d' : frame) :
  text_step var field d = Some d' → d' `sublist_of` d.
Proof.
  unfold text_step. destruct (String.eqb (lower (strip var)) "").
  - by intros [= ->].
  - destruct (str_contains re_other (lower (strip var))); [|done].
    simpl. intros [= <-]. apply sublist_filter.
Qed.

Lemma filter_frame_sublist (w : Filters) (df : list Row) (d : frame) :
  filter_frame w df = Some d → d `sublist_of` indexed df.
Proof.
  unfold filter_frame. intros H.
  destruct (text_step (dir_search_var w) dir _) as [d1|] eqn:H1; [|done].
  simpl in H.
  destruct (text_step (file_search_var w) file d1) as [d2|] eqn:H2; [|done].
  simpl in H. injection H as <-.
  etrans; [|etrans; [|etrans; [|etrans]]].
  - unfold hide_step. destruct (hide_marked_var w); [apply sublist_filter | done].
  - by eapply text_step_sublist.
  - by eapply text_step_sublist.
  - apply sublist_fold_left. intros d' f. unfold category_step.
    destruct (String.eqb f.2 "All"); [done | apply sublist_filter].
  - apply sublist_fold_left. intros d' f. apply sublist_filter.
Qed.

Lemma text_step_is_Some (var : string) (field : Row → string) (d : frame) :
  is_Some (str_contains re_other (lower (strip var))) → is_Some (text_step var field d).
Proof.
  intros [m Hm]. unfold text_step. rewrite Hm.
  by destruct (String.eqb _ _).
Qed.

(** When the queries compile the filters produce a frame. *)
Lemma filter_frame_is_Some (w : Filters) (df : list Row) :
  queries_compile w → is_Some (filter_frame w df).
Proof.
  intros [Hd Hf]. unfold filter_frame.
  destruct (text_step_is_Some (dir_search_var w) dir
              (fold_left category_step (category_filters w)
                 (fold_left numeric_step (numeric_filters w) (indexed df))) Hd)
    as [d1 ->].
  simpl. destruct (text_step_is_Some (file_search_var w) file d1 Hf) as [d2 ->].
  done.
Qed.

Lemma elem_of_indexed (df : list Row) (i : nat) (r : Row) :
  (i, r) ∈ indexed df ↔ df !! i = Some r.
Proof.
  unfold indexed. rewrite list_elem_of_lookup. split.
  - intros [j Hj]. rewrite list_lookup_imap in Hj.
    destruct (df !! j) as [r'|] eqn:Hr; simpl in Hj; [|done].
    by injection Hj as -> ->.
  - intros H. exists i. by rewrite list_lookup_imap, H.
Qed.


Lemma apply_filters_Some (reset : bool) (s s' : Gallery) :
  _apply_filters reset s = Some s' ↔
  ∃ d, filter_frame (widgets s) (df s) = Some d
       ∧ s' = {| df := df s; filtered_df := d;
                 page := if reset then 0%Z
                         else Z.min (page s) (max_page (length d));
                 marked_page := marked_page s; selected_index := None;
                 widgets := widgets s; same_name_var := same_name_var s |}.
Proof.
  unfold _apply_filters.
  destruct (filter_frame (widgets s) (df s)) as [d|]; simpl.
  - split.
    + intros [= <-]. by exists d.
    + intros (d' & [= <-] & ->). done.
  - split; [done | by intros (? & ? & _)].
Qed.

(** C5.  Whatever the values of the filter panel, the frame computed by
    [_apply_filters] is a subsequence of the table with its index, in table
    order, made of rows of the table; it depends on the table and on the
    panel only, so applying the same filters again yields the same frame.
    The frame exists whenever the two text queries compile as regular
    expressions. *)
Theorem filtered_view_subsequence_and_idempotent (s : Gallery) (reset : bool) :
  (queries_compile (widgets s) → is_Some (_apply_filters reset s))
  ∧ ∀ s', _apply_filters reset s = Some s' →
      filtered_df s' `sublist_of` indexed (df s)
      ∧ (∀ i r, (i, r) ∈ filtered_df s' → df s !! i = Some r)
      ∧ (∀ s2 reset2, df s2 = df s → widgets s2 = widgets s →
           ∃ s2', _apply_filters reset2 s2 = Some s2'
                  ∧ filtered_df s2' = filtered_df s')
      ∧ (∀ reset', ∃ s'', _apply_filters reset' s' = Some s''
                          ∧ filtered_df s'' = filtered_df s').
Proof.
  split.
  - intros Hq. destruct (filter_frame_is_Some (widgets s) (df s) Hq) as [d Hd].
    unfold _apply_filters. rewrite Hd. by eexists.
  - intros s' (d & Hd & ->)%apply_filters_Some. cbn [filtered_df df widgets].
    assert (Hsame : ∀ s2 reset2, df s2 = df s → widgets s2 = widgets s →
              ∃ s2', _apply_filters reset2 s2 = Some s2' ∧ filtered_df s2' = d).
    { intros s2 reset2 Hdf Hw. eexists. split.
      - apply apply_filters_Some. exists d. rewrite Hdf, Hw. split; [done|reflexivity].
      - done. }
    split_and!.
    + by apply filter_frame_sublist with (widgets s).
    + intros i r Hin. apply elem_of_indexed.
      eapply sublist_subseteq; [|exact Hin].
      by apply filter_frame_sublist with (widgets s).
    + exact Hsame.
    + intros reset'. by apply Hsame.
Qed.

Lemma fle_NaN_r (a : fval) : fle a FNaN = false.
Proof. by destruct a. Qed.

(** C10.  A row whose cell is NaN in a column that has a numeric filter is in
    no frame computed by [_apply_filters], whatever the bounds of the
    filters. *)
Theorem nan_row_excluded_by_numeric_filter (s : Gallery) (reset : bool) (s' : Gallery)
    (i : nat) (r : Row) (k : string) :
  _apply_filters reset s = Some s' →
  k ∈ (numeric_filters (widgets s)).*1 →
  num_cell r k = FNaN →
  (i, r) ∉ filtered_df s'.
Proof.
  intros (d & Hd & ->)%apply_filters_Some Hk Hnan Hin. cbn [filtered_df] in Hin.
  apply (filter_frame_elem _ _ _ _ Hd) in Hin as (_ & (Hnum & _) & _).
  apply list_elem_of_fmap in Hk as ([k' [mn mx]] & -> & Hf).
  specialize (Hnum _ Hf). simpl in Hnum, Hnan. rewrite Hnan, fle_NaN_r in Hnum. done.
Qed.




(** ** Marking *)


Lemma passes_set_marked (w : Filters) (b : bool) (r : Row) :
  passes_unmarked_filters w (set_marked b r) ↔ passes_unmarked_filters w r.
Proof. done. Qed.


(** ** Text predicates *)

Lemma str_app_nil (s : string) : ("" ++ s)%string = s.
Proof. reflexivity. Qed.

Lemma str_app_cons (c : ascii) (a b : string) :
  (String c a ++ b)%string = String c (a ++ b)%string.
Proof. reflexivity. Qed.

Lemma str_app_nil_r (s : string) : (s ++ "")%string = s.
Proof. induction s as [|c s IH]; [done|]. rewrite str_app_cons. by f_equal. Qed.

Lemma str_app_assoc (a b c : string) : ((a ++ b) ++ c)%string = (a ++ (b ++ c))%string.
Proof. induction a as [|x a IH]; [done|]. rewrite !str_app_cons. by f_equal. Qed.

Ltac str_simpl := simpl in *; rewrite ?str_app_nil, ?str_app_cons in *.

Lemma lower_char_idemp (c : ascii) : lower_char (lower_char c) = lower_char c.
Proof. destruct c as [[] [] [] [] [] [] [] []]; reflexivity. Qed.

Lemma is_special_lower (c : ascii) : is_special (lower_char c) = is_special c.
Proof. destruct c as [[] [] [] [] [] [] [] []]; reflexivity. Qed.

Lemma lower_idemp (s : string) : lower (lower s) = lower s.
Proof. induction s as [|c s IH]; simpl; [done|]. by rewrite lower_char_idemp, IH. Qed.

Lemma lower_app (a b : string) : lower (a ++ b) = (lower a ++ lower b)%string.
Proof. induction a as [|c a IH]; simpl; [done|]. by rewrite IH. Qed.

Lemma plain_lower (s : string) : plain (lower s) = plain s.
Proof. induction s as [|c s IH]; simpl; [done|]. by rewrite is_special_lower, IH. Qed.

Lemma lower_empty (s : string) : lower s = "" ↔ s = "".
Proof. by destruct s. Qed.

Lemma re_compile_plain (q : string) :
  plain q = true → re_compile q = Some (ReChar <$> list_ascii_of_string q).
Proof.
  induction q as [|c q IH]; simpl; [done|].
  intros [Hc Hq]%andb_true_iff. rewrite IH by done.
  apply negb_true_iff in Hc.
  assert (Ascii.eqb c "."%char = false) as ->.
  { unfold is_special in Hc. simpl in Hc. by apply orb_false_iff in Hc as [? _]. }
  by rewrite Hc.
Qed.

Lemma re_match_here_literal (q : string) : ∀ s : string,
  re_match_here (ReChar <$> list_ascii_of_string q) s = true
  ↔ ∃ post : string, lower s = (lower q ++ post)%string.
Proof.
  induction q as [|p q IH]; intros s; str_simpl.
  - split; [intros _; by eexists | done].
  - destruct s as [|c s]; str_simpl.
    + split; [done | by intros [? ?]].
    + rewrite andb_true_iff, IH, Ascii.eqb_eq. split.
      * intros [-> [post ->]]. by exists post.
      * intros [post [= -> ->]]. split; [done | by exists post].
Qed.

Lemma re_search_spec (re : list re_item) : ∀ s : string,
  re_search re s = true
  ↔ ∃ pre rest : string, s = (pre ++ rest)%string ∧ re_match_here re rest = true.
Proof.
  induction s as [|c s IH]; simpl.
  - rewrite orb_false_r. split.
    + intros H. by exists "", "".
    + intros (pre & rest & Hs & H). destruct pre; str_simpl; [by subst | done].
  - rewrite orb_true_iff, IH. split.
    + intros [H|(pre & rest & -> & H)].
      * by exists "", (String c s).
      * by exists (String c pre), rest.
    + intros (pre & rest & Hs & H). destruct pre as [|c' pre]; str_simpl.
      * left. by subst.
      * right. injection Hs as -> ->. by exists pre, rest.
Qed.

(** On a query without special characters the test made by the code is
    substring containment, ignoring case, of the stripped query. *)
Lemma text_match_plain (var field : string) :
  plain (strip var) = true →
  text_match var field = true ↔ contains_ignoring_case (strip var) field.
Proof.
  intros Hp. unfold text_match, contains_ignoring_case.
  destruct (String.eqb_spec (lower (strip var)) "") as [He|Hne]; simpl.
  - rewrite He. split; [intros _ | done]. by exists "", (lower field).
  - unfold str_contains.
    rewrite re_compile_plain by (by rewrite plain_lower).
    rewrite re_search_spec. split.
    + intros (pre & rest & Hf & (post & Hr)%re_match_here_literal).
      exists (lower pre), post.
      rewrite <- (lower_idemp field), Hf, lower_app, Hr. by rewrite lower_idemp.
    + intros (pre & post & Hf).
      exists pre, (lower (strip var) ++ post)%string. split; [done|].
      apply re_match_here_literal. exists (lower post).
      by rewrite lower_app.
Qed.

Lemma lstrip_spaces (s : string) :
  forallb is_space (list_ascii_of_string s) = true → lstrip s = "".
Proof.
  induction s as [|c s IH]; simpl; [done|].
  intros [-> Hs]%andb_true_iff. by apply IH.
Qed.

Lemma rstrip_spaces (s : string) :
  forallb is_space (list_ascii_of_string s) = true → rstrip s = "".
Proof.
  induction s as [|c s IH]; simpl; [done|].
  intros [-> Hs]%andb_true_iff. by rewrite IH.
Qed.

(** C7 (as amended).  For texts over the characters below 256, which are
    the strings here: with text queries that, stripped of surrounding white
    space, hold no character that is special in a regular expression,
    [_apply_filters] produces a frame, and a row of the table is in it
    exactly when it passes the other filters and each stripped query occurs,
    ignoring case, as a substring of its own field ([dir], [file]); a query
    that is empty or all white space lets every cell pass. *)
Theorem text_filters_test_stripped_substring (s : Gallery) (reset : bool) :
  plain (strip (dir_search_var (widgets s))) = true →
  plain (strip (file_search_var (widgets s))) = true →
  (∃ s', _apply_filters reset s = Some s'
     ∧ ∀ i r, (i, r) ∈ filtered_df s' ↔
         df s !! i = Some r
         ∧ (∀ f, f ∈ numeric_filters (widgets s) →
                 fle f.2.1 (num_cell r f.1) && fle (num_cell r f.1) f.2.2 = true)
         ∧ (∀ f, f ∈ category_filters (widgets s) →
                 f.2 = "All" ∨ cat_equals r f.1 f.2 = true)
         ∧ contains_ignoring_case (strip (dir_search_var (widgets s))) (dir r)
         ∧ contains_ignoring_case (strip (file_search_var (widgets s))) (file r)
         ∧ (hide_marked_var (widgets s) = true → marked r = false))
  ∧ (∀ var field, forallb is_space (list_ascii_of_string var) = true →
                  text_match var field = true).
Proof.
  intros Hd Hf. split.
  - assert (Hq : queries_compile (widgets s)).
    { split; unfold str_contains; rewrite re_compile_plain;
        by rewrite ?plain_lower. }
    destruct (filter_frame_is_Some (widgets s) (df s) Hq) as [d Hfd].
    eexists. split.
    + apply apply_filters_Some. exists d. split; [exact Hfd | reflexivity].
    + intros i r. cbn [filtered_df].
      rewrite (filter_frame_elem _ _ _ _ Hfd), elem_of_indexed.
      unfold passes_unmarked_filters. cbn [snd].
      rewrite (text_match_plain _ _ Hd), (text_match_plain _ _ Hf). tauto.
  - intros var field Hsp. unfold text_match, strip.
    by rewrite (rstrip_spaces _ Hsp).
Qed.

(** ** Export *)

Lemma lines_from_line (p : string) : ∀ (cur rest : string),
  has_newline p = false →
  lines_from (p ++ String "010"%char rest) cur
  = ((cur ++ p)%string :: (lines_from rest "").1, (lines_from rest "").2).
Proof.
  induction p as [|c p IH]; intros cur rest Hp; str_simpl.
  - by rewrite str_app_nil_r.
  - apply orb_false_iff in Hp as [Hc Hp]. rewrite Hc, IH by done.
    by rewrite str_app_assoc.
Qed.

Lemma export_text_lines (rows : list Row) :
  (∀ r, r ∈ rows → has_newline (os_path_join (dir r) (file r)) = false) →
  text_lines (export_text rows)
  = ((λ r, os_path_join (dir r) (file r)) <$> rows, "").
Proof.
  unfold text_lines. induction rows as [|r rows IH]; intros H; [done|].
  cbn [export_text]. rewrite str_app_cons, str_app_nil.
  rewrite lines_from_line by (apply H; by left).
  rewrite IH by (intros r' Hr'; apply H; by right). done.
Qed.

Lemma marked_rows_nil (d : list Row) : marked_count d = 0 ↔ marked_rows d = [].
Proof. unfold marked_count, marked_rows. by destruct (filter _ d). Qed.

Lemma marked_rows_clear (d : list Row) : marked_rows (set_marked false <$> d) = [].
Proof.
  unfold marked_rows. induction d as [|r d IH]; [done|].
  rewrite fmap_cons, filter_cons_False by (simpl; tauto). done.
Qed.

(** C8.  Without a marked row [_export_marked_txt] shows the notice and
    leaves the files as they are, in particular right after [_clear_marked],
    however that has ended.
    With a marked row, a path chosen in the dialog and no I/O error, the
    chosen file holds one line per marked row, in table order, each line the
    joined [dir] and [file] of the row and ended by a newline. *)
Theorem export_marked_refuses_or_writes_paths (s : Gallery) (chosen : string)
    (io_error : option string) (fs : gmap string string) :
  (marked_count (df s) = 0 →
     _export_marked_txt s chosen io_error fs
     = (fs, [ShowInfo "Export" "No marked files to export."]))
  ∧ (∀ s', state_of (_clear_marked s) = s' →
       _export_marked_txt s' chosen io_error fs
       = (fs, [ShowInfo "Export" "No marked files to export."]))
  ∧ (0 < marked_count (df s) → chosen ≠ "" → io_error = None →
       let rows := filter (λ r, Is_true (marked r)) (df s) in
       ∃ text msg,
         _export_marked_txt s chosen io_error fs
         = (<[chosen := text]> fs, [ShowInfo "Export complete" msg])
         ∧ text = export_text rows
         ∧ ((∀ r, r ∈ rows → has_newline (os_path_join (dir r) (file r)) = false) →
            text_lines text = ((λ r, os_path_join (dir r) (file r)) <$> rows, ""))).
Proof.
  split_and!.
  - intros H%marked_rows_nil. unfold _export_marked_txt. by rewrite H.
  - intros s' <-. unfold _clear_marked, ends_with_apply_filters.
    destruct (_apply_filters false _) as [s'|] eqn:Hs'; cbn [state_of].
    + apply apply_filters_Some in Hs' as (d & _ & ->).
      unfold _export_marked_txt. cbn [df with_df]. by rewrite marked_rows_clear.
    + unfold _export_marked_txt. cbn [df with_df]. by rewrite marked_rows_clear.
  - intros Hpos Hch -> rows. unfold _export_marked_txt.
    fold (marked_rows (df s)) in rows.
    destruct (marked_rows (df s)) as [|r rs] eqn:Hm.
    { apply marked_rows_nil in Hm. lia. }
    destruct (String.eqb_spec chosen "") as [?|_]; [done|].
    eexists _, _. split_and!; [reflexivity | done |].
    apply export_text_lines.
Qed.

(** ** Pagination *)

Lemma ceil_pages_eq (n : nat) : ceil_pages n = ((Z.of_nat n + 19) / 20)%Z.
Proof.
  unfold ceil_pages, Qceiling, Qfloor. simpl.
  match goal with |- context [Z.pos ?p] => change (Z.pos p) with 20%Z end.
  rewrite Z.mul_1_r.
  assert (H := Z.div_mod (Z.of_nat n + 19) 20 ltac:(lia)).
  assert (H' := Z.mod_pos_bound (Z.of_nat n + 19) 20 ltac:(lia)).
  assert (Hd := Z.div_mod (- Z.of_nat n) 20 ltac:(lia)).
  assert (Hd' := Z.mod_pos_bound (- Z.of_nat n) 20 ltac:(lia)).
  lia.
Qed.

Lemma max_page_total (n : nat) : max_page n = (total_pages n - 1)%Z.
Proof. unfold max_page, total_pages. lia. Qed.

(** The page of the filtered view is clamped by every application of the
    filters. *)
Lemma apply_filters_clamps_page (reset : bool) (s s' : Gallery) :
  _apply_filters reset s = Some s' → (0 ≤ page s)%Z →
  (0 ≤ page s' ≤ total_pages (length (filtered_df s')) - 1)%Z.
Proof.
  intros (d & _ & ->)%apply_filters_Some Hp. cbn [page filtered_df].
  rewrite <- max_page_total. unfold max_page. destruct reset; lia.
Qed.

(** The page of the marked view is not touched by it. *)
Lemma apply_filters_keeps_marked_page (reset : bool) (s s' : Gallery) :
  _apply_filters reset s = Some s' → marked_page s' = marked_page s.
Proof. by intros (d & _ & ->)%apply_filters_Some. Qed.

Lemma next_page_at_last (s : Gallery) :
  page s = max_page (length (filtered_df s)) → _next_page s = s.
Proof. intros H. unfold _next_page. rewrite H, Z.ltb_irrefl. done. Qed.

Lemma prev_page_at_first (s : Gallery) : page s = 0%Z → _prev_page s = s.
Proof. intros H. unfold _prev_page. by rewrite H. Qed.

Lemma next_marked_page_at_last (s : Gallery) :
  marked_page s = max_page (marked_count (df s)) → _next_marked_page s = s.
Proof.
  intros H. unfold _next_marked_page.
  destruct (Z.ltb_spec ((marked_page s + 1) * Z.of_nat IMAGES_PER_PAGE)
              (Z.of_nat (marked_count (df s)))) as [Hlt|]; [|done].
  exfalso. rewrite H in Hlt. unfold max_page in Hlt.
  rewrite ceil_pages_eq in Hlt. change (Z.of_nat IMAGES_PER_PAGE) with 20%Z in Hlt.
  assert (Hd := Z.div_mod (Z.of_nat (marked_count (df s)) + 19) 20 ltac:(lia)).
  assert (Hd' := Z.mod_pos_bound (Z.of_nat (marked_count (df s)) + 19) 20 ltac:(lia)).
  lia.
Qed.

Lemma prev_marked_page_at_first (s : Gallery) :
  marked_page s = 0%Z → _prev_marked_page s = s.
Proof. intros H. unfold _prev_marked_page. by rewrite H. Qed.

End GalleryFacts.

(** ** The code at concrete inputs *)



(** C7, the claim as stated fails: the query [" a"] is not part of the file
    name ["ba.png"], yet the row is kept, because the query is stripped before
    it is searched. *)
Lemma unstripped_query_is_not_what_is_searched :
  let w := {| numeric_filters := []; category_filters := [];
              dir_search_var := ""; file_search_var := " a";
              hide_marked_var := false |} in
  let r := sample_row "Dogs" "ba.png" true (FFin (1 # 4)) (Some "dog") in
  (∃ s', _apply_filters re_unused true (with_widgets w sample_gallery) = Some s'
         ∧ (1, r) ∈ filtered_df s')
  ∧ ¬ contains_ignoring_case (file_search_var w) (file r).
Proof.
  split.
  - eexists. split; [vm_compute; reflexivity|].
    apply list_elem_of_lookup. by exists 1.
  - intros (pre & post & H). simpl in H.
    do 6 (destruct pre as [|? pre]; simpl in H; rewrite ?str_app_nil, ?str_app_cons in H;
          [discriminate H|]; injection H as _ H).
    destruct pre; simpl in H; rewrite ?str_app_nil, ?str_app_cons in H; discriminate H.
Qed.

(** Case is ignored beyond ASCII: the query U+00E9 (e with acute accent) is
    found in a cell that begins with its capital U+00C9. *)
Example accented_query_ignores_case :
  text_match re_unused (String "233"%char "") (String "201"%char "cole") = true
  ∧ lower (String "201"%char "COLE") = String "233"%char "cole"
  ∧ strip (String "160"%char (String "233"%char (String "133"%char "")))
    = String "233"%char "".
Proof. split_and!; reflexivity. Qed.

(** The query is read as a regular expression: [.] is found in a cell that
    holds no dot. *)
Example dot_query_matches_any_character :
  text_match re_unused "." "cats" = true ∧ ¬ contains_ignoring_case "." "cats".
Proof.
  split; [reflexivity|].
  intros (pre & post & H). simpl in H.
  do 4 (destruct pre as [|? pre]; simpl in H; rewrite ?str_app_nil, ?str_app_cons in H;
        [discriminate H|]; injection H as _ H).
  destruct pre; simpl in H; rewrite ?str_app_nil, ?str_app_cons in H; discriminate H.
Qed.

(** C9.  The code at the inputs where it departs from the claim.  When the
    file dialog is cancelled, [_load_dataframe] destroys the window without a
    message and returns; [__init__] goes on to [_build_layout], which raises
    [TclError] out of [__init__].  When the table lacks the [file] column the
    error box is shown, and again [_build_layout] is entered and raises. *)
Theorem init_enters_build_layout_after_abort
    (re_other : string → option (string → bool)) (csv : Csv) :
  (let run := __init__ re_other "" csv in
   entered run = ["_load_dataframe"; "_build_layout"]
   ∧ dialogs run = []
   ∧ result run = Raised (TclError "application has been destroyed"))
  ∧ (let run := __init__ re_other "table.csv" csv_without_file in
     entered run = ["_load_dataframe"; "_build_layout"]
     ∧ dialogs run = [ShowError "Error" "Dataframe must contain 'dir' and 'file'"]
     ∧ result run = Raised (TclError "application has been destroyed")).
Proof. split; vm_compute; done. Qed.

(** C3.  The code at the input where it departs from the claim: with 21
    marked rows the marked view has two pages; "Next" moves it to page index
    1; "Clear marked" then leaves no marked row, so the marked view has one
    page, and the page index of the marked view is still 1. *)
Theorem clear_marked_leaves_marked_page_out_of_range
    (re_other : string → option (string → bool)) :
  let s1 := _next_marked_page marked_gallery in
  total_pages (marked_count (df marked_gallery)) = 2%Z
  ∧ marked_page s1 = 1%Z
  ∧ ∃ s2, _clear_marked re_other s1 = Completes s2
      ∧ marked_count (df s2) = 0
      ∧ total_pages (marked_count (df s2)) = 1%Z
      ∧ marked_page s2 = 1%Z.
Proof.
  split_and!; [reflexivity | reflexivity |].
  eexists. split_and!; [vm_compute; reflexivity | reflexivity ..].
Qed.

(** ** The theorems at concrete inputs *)

(** Capacity 2.  Three distinct keys put with times that do not follow the
    order of insertion: the last two keys remain.  And with a [get] of the
    first key before the third is put: the [get] hits, and the key it has
    touched is the one that stays. *)
Lemma lru_capacity_and_recency_witness :
  let kvs := [("a.png", (1, 9%float)); ("b.png", (2, 5%float)); ("c.png", (3, 1%float))] in
  let ops := [ThumbnailCache.Put "a.png" 1 9; ThumbnailCache.Put "b.png" 2 5;
              ThumbnailCache.Get "a.png"; ThumbnailCache.Put "c.png" 3 1] in
  (NoDup kvs.*1 ∧ length kvs = 2 + 1
   ∧ let c := ThumbnailCache.run (ThumbnailCache.puts kvs) (ThumbnailCache.init 2) in
     length (ThumbnailCache.cache c) = 2
     ∧ od_keys (ThumbnailCache.cache c) = ["b.png"; "c.png"])
  ∧ od_keys (ThumbnailCache.cache (ThumbnailCache.run ops (ThumbnailCache.init 2)))
    = ["a.png"; "c.png"]
  ∧ (ThumbnailCache.get "a.png"
       (ThumbnailCache.run (take 2 ops) (ThumbnailCache.init 2))).1 = Some 1
  ∧ (ThumbnailCache.get "b.png"
       (ThumbnailCache.run ops (ThumbnailCache.init 2))).1 = None.
Proof.
  intros kvs ops.
  assert (Hnd : NoDup kvs.*1).
  { apply (bool_decide_unpack _). vm_compute. exact I. }
  destruct (lru_capacity_and_recency 2) as (Hkeys & Hget & _ & Hputs).
  split; [|split; [|split]].
  - split; [exact Hnd|]. split; [reflexivity|]. exact (Hputs 1 kvs Hnd eq_refl).
  - exact (proj1 (proj2 (Hkeys ops))).
  - exact (Hget (take 2 ops) "a.png").
  - exact (Hget ops "b.png").
Defined.


Lemma filtered_view_subsequence_and_idempotent_witness :
  ∃ s', _apply_filters re_unused true sample_gallery = Some s'
    ∧ filtered_df s' `sublist_of` indexed (df sample_gallery)
    ∧ ∃ s'', _apply_filters re_unused false s' = Some s'' ∧ filtered_df s'' = filtered_df s'.
Proof.
  eexists. split; [vm_compute; reflexivity|].
  destruct (proj2 (filtered_view_subsequence_and_idempotent re_unused sample_gallery true)
              _ eq_refl) as (Hsub & _ & _ & Hagain).
  split; [exact Hsub | exact (Hagain false)].
Defined.



(** The query [" CAT "] on the sample table, and the query U+00E9 (e with
    acute accent) on a table whose [dir] cell begins with the capital
    U+00C9. *)
Lemma text_filters_test_stripped_substring_witness :
  let w := {| numeric_filters := []; category_filters := [];
              dir_search_var := " CAT "; file_search_var := "";
              hide_marked_var := false |} in
  let s := with_widgets w sample_gallery in
  (plain (strip (dir_search_var w)) = true
   ∧ plain (strip (file_search_var w)) = true
   ∧ ∃ s', _apply_filters re_unused true s = Some s'
       ∧ ∀ i r, (i, r) ∈ filtered_df s' → contains_ignoring_case "CAT" (dir r))
  ∧ ∃ s', _apply_filters re_unused true accent_gallery = Some s'
      ∧ filtered_df s' = indexed (df accent_gallery)
      ∧ ∀ i r, (i, r) ∈ filtered_df s' →
               contains_ignoring_case (String "233"%char "") (dir r).
Proof.
  intros w s. split.
  - split; [reflexivity|]. split; [reflexivity|].
    destruct (text_filters_test_stripped_substring re_unused s true eq_refl eq_refl)
      as [(s' & Hs' & Hiff) _].
    exists s'. split; [exact Hs'|].
    intros i r Hin. exact (proj1 (proj2 (proj2 (proj2 (proj1 (Hiff i r) Hin))))).
  - destruct (text_filters_test_stripped_substring re_unused accent_gallery true
                eq_refl eq_refl) as [(s' & Hs' & Hiff) _].
    exists s'. split; [exact Hs'|]. split.
    + vm_compute in Hs'. injection Hs' as <-. reflexivity.
    + intros i r Hin. exact (proj1 (proj2 (proj2 (proj2 (proj1 (Hiff i r) Hin))))).
Defined.

Lemma export_marked_refuses_or_writes_paths_witness :
  (0 < marked_count (df sample_gallery) ∧ "out.txt" ≠ ""
   ∧ ∃ text msg,
       _export_marked_txt sample_gallery "out.txt" None ∅
       = (<["out.txt" := text]> ∅, [ShowInfo "Export complete" msg])
       ∧ text_lines text = (["Dogs/ba.png"], ""))
  ∧ ∃ s', _clear_marked re_unused sample_gallery = Completes s'
      ∧ _export_marked_txt s' "out.txt" None ∅
        = (∅, [ShowInfo "Export" "No marked files to export."]).
Proof.
  split.
  - assert (Hpos : 0 < marked_count (df sample_gallery)) by (vm_compute; lia).
    assert (Hch : "out.txt" ≠ "") by discriminate.
    split; [exact Hpos|]. split; [exact Hch|].
    destruct (proj2 (proj2 (export_marked_refuses_or_writes_paths
                              re_unused sample_gallery "out.txt" None ∅)) Hpos Hch eq_refl)
      as (text & msg & Hrun & Htext & Hlines).
    exists text, msg. split; [exact Hrun|].
    rewrite Htext. reflexivity.
  - eexists. split; [vm_compute; reflexivity|].
    exact (proj1 (proj2 (export_marked_refuses_or_writes_paths
                           re_unused sample_gallery "out.txt" None ∅)) _ eq_refl).
Defined.

Lemma nan_row_excluded_by_numeric_filter_witness :
  let r := sample_row "cats" "c.png" false FNaN None in
  ∃ s', _apply_filters re_unused true sample_gallery = Some s'
    ∧ "score" ∈ (numeric_filters (widgets sample_gallery)).*1
    ∧ num_cell r "score" = FNaN
    ∧ (2, r) ∉ filtered_df s'.
Proof.
  intros r. eexists. split; [vm_compute; reflexivity|].
  assert (Hk : "score" ∈ (numeric_filters (widgets sample_gallery)).*1)
    by apply list_elem_of_here.
  split; [exact Hk|]. split; [reflexivity|].
  exact (nan_row_excluded_by_numeric_filter re_unused sample_gallery true _ 2 r "score"
           eq_refl Hk eq_refl).
Defined.

(** * Further properties of the code *)

(** ** The cache under [get], [put] and [purge_unused] *)

Section CacheCalls.
Import ThumbnailCache.

Lemma od_delitems_cons_ne {V} (ks : list string) : ∀ (k : string) (v : V) (d : odict V),
  k ∉ ks →
  fold_left (λ d k, od_delitem k d) ks ((k, v) :: d)
  = (k, v) :: fold_left (λ d k, od_delitem k d) ks d.
Proof.
  induction ks as [|k' ks IH]; intros k v d Hk; [done|].
  apply not_elem_of_cons in Hk as [Hne Hk]. simpl.
  destruct (String.eqb_spec k' k) as [->|_]; [done|]. by apply IH.
Qed.

Lemma od_delitems_filter {V} (P : V → bool) (d : list (string * V)) :
  NoDup (od_keys d) →
  fold_left (λ d k, od_delitem k d)
            (filter (λ kv : string * V, Is_true (P kv.2)) d).*1 d
  = filter (λ kv : string * V, ¬ Is_true (P kv.2)) d.
Proof.
  induction d as [|[k v] d IH]; [done|].
  unfold od_keys. rewrite fmap_cons, NoDup_cons. intros [Hk Hnd].
  rewrite !filter_cons. cbn [snd].
  destruct (decide (Is_true (P v))) as [Ht|Hf];
    destruct (decide (¬ Is_true (P v))) as [Hn|Hnn]; try tauto.
  - rewrite fmap_cons. cbn [fst fold_left od_delitem]. rewrite String.eqb_refl.
    by apply IH.
  - rewrite od_delitems_cons_ne.
    + f_equal. by apply IH.
    + intros Hin. apply Hk. apply list_elem_of_fmap in Hin as (kv & -> & Hin).
      apply list_elem_of_filter in Hin as [_ Hin].
      apply list_elem_of_fmap. by exists kv.
Qed.

Lemma purge_unused_filter (max_age now : float) (c : t) :
  NoDup (od_keys (cache c)) →
  cache (purge_unused max_age now c)
  = filter (λ kv : string * entry, ¬ Is_true (expired max_age now kv.2)) (cache c)
  ∧ max_size (purge_unused max_age now c) = max_size c.
Proof.
  intros Hnd. split; [|done]. unfold purge_unused. cbn [cache].
  by apply od_delitems_filter.
Qed.

(** X1.  [purge_unused] keeps, in their order and with image and time as
    they were, exactly the entries for which [now - t > max_age] is false,
    where [t] is the stored time and the difference is the rounded one of
    the floats; the capacity is unchanged. *)
Theorem purge_unused_keeps_fresh_entries (max_age now : float) (c : t) :
  NoDup (od_keys (cache c)) →
  cache (purge_unused max_age now c)
  = filter (λ kv : string * entry, ¬ Is_true (expired max_age now kv.2)) (cache c)
  ∧ max_size (purge_unused max_age now c) = max_size c.
Proof. apply purge_unused_filter. Qed.

(** X2.  [get] returns the image stored under the path, or nothing when the
    path is not cached, and changes no stored image or time. *)
Theorem get_returns_stored_image (p : string) (c : t) :
  NoDup (od_keys (cache c)) →
  (get p c).1 = fst <$> od_lookup p (cache c)
  ∧ ∀ k, od_lookup k (cache (get p c).2) = od_lookup k (cache c).
Proof. apply get_lookup. Qed.

Lemma od_delitem_notin {V} (k : string) (d : odict V) :
  k ∉ od_keys d → od_delitem k d = d.
Proof.
  induction d as [|[k' v'] d IH]; simpl; [done|].
  rewrite not_elem_of_cons. intros [Hne Hk].
  destruct (String.eqb_spec k k'); [done|]. by rewrite IH.
Qed.

(** X3.  What is put can be fetched: with room for at least one entry, a
    [get] right after [put] returns the image that was put. *)
Theorem put_then_get_returns_image (p : string) (i : PhotoImage) (now : float) (c : t) :
  NoDup (od_keys (cache c)) → 1 ≤ max_size c →
  (get p (put p i now c)).1 = Some i.
Proof.
  intros Hnd Hmax.
  assert (Hl : od_lookup p (cache (put p i now c)) = Some (i, now)).
  { rewrite put_cache. cbn zeta. rewrite length_app. cbn [length].
    rewrite drop_app_le by lia. rewrite od_lookup_app.
    assert (od_lookup p (drop (length (od_delitem p (cache c)) + 1 - max_size c)
                              (od_delitem p (cache c))) = None) as ->.
    { apply od_lookup_None. intros Hin.
      assert (Hp : p ∈ od_keys (od_delitem p (cache c))).
      { unfold od_keys in *. apply list_elem_of_fmap in Hin as (kv & -> & Hin).
        apply list_elem_of_fmap. exists kv. split; [done|].
        eapply sublist_subseteq; [apply sublist_drop | exact Hin]. }
      rewrite od_keys_delitem in Hp by done.
      apply list_elem_of_filter in Hp as [? _]. done. }
    simpl. by rewrite String.eqb_refl. }
  assert (Hnd' : NoDup (od_keys (cache (put p i now c)))).
  { unfold put, _cleanup. cbn [cache max_size].
    rewrite cleanup_loop_keys, od_keys_setitem_move by done.
    apply most_recent_NoDup. by apply touch_NoDup. }
  destruct (get_lookup p _ Hnd') as [-> _]. by rewrite Hl.
Qed.

(** X4.  Putting a path that is not cached appends it; when the cache is
    full the least recently used entry, the first one, is the one evicted,
    and no other. *)
Theorem put_new_key_evicts_least_recent (p : string) (i : PhotoImage) (now : float) (c : t) :
  p ∉ od_keys (cache c) → 1 ≤ max_size c → length (cache c) ≤ max_size c →
  cache (put p i now c)
  = (if length (cache c) <? max_size c then cache c else drop 1 (cache c))
    ++ [(p, (i, now))].
Proof.
  intros Hp Hmax Hlen. rewrite put_cache. cbn zeta.
  rewrite od_delitem_notin by done. rewrite length_app. cbn [length].
  rewrite drop_app_le by lia. f_equal.
  destruct (Nat.ltb_spec (length (cache c)) (max_size c)).
  - replace (length (cache c) + 1 - max_size c) with 0 by lia. done.
  - replace (length (cache c) + 1 - max_size c) with 1 by lia. done.
Qed.

(** X5.  A cache of capacity 0 holds nothing: every [put] leaves it empty. *)
Theorem put_into_zero_capacity_keeps_nothing (p : string) (i : PhotoImage) (now : float) (c : t) :
  max_size c = 0 → cache (put p i now c) = [] ∧ (get p (put p i now c)).1 = None.
Proof.
  intros Hmax.
  assert (H : cache (put p i now c) = []).
  { rewrite put_cache. cbn zeta. rewrite Hmax, Nat.sub_0_r. apply drop_all. }
  split; [done|]. unfold get. by rewrite H.
Qed.

Lemma cache_exec_ok (c : t) (k : cache_call) : cache_ok c → cache_ok (cache_exec c k).
Proof.
  intros [Hnd Hlen]. destruct k as [p|p i now|a now]; simpl.
  - unfold get. destruct (od_lookup p (cache c)) as [e|] eqn:Hp; [|done].
    cbn [snd]. destruct (od_keys_move_to_end p e (cache c) Hnd Hp) as [Hk _].
    split; cbn [cache max_size].
    + rewrite Hk. by apply touch_NoDup.
    + rewrite <- (length_fmap fst). fold (od_keys (od_move_to_end p (cache c))).
      rewrite Hk, touch_length_in; [|done|by eapply od_lookup_Some_elem].
      unfold od_keys. by rewrite length_fmap.
  - split.
    + unfold put, _cleanup. cbn [cache max_size].
      rewrite cleanup_loop_keys, od_keys_setitem_move by done.
      apply most_recent_NoDup. by apply touch_NoDup.
    + rewrite put_cache. cbn zeta. rewrite length_drop.
      change (max_size (put p i now c)) with (max_size c). lia.
  - destruct (purge_unused_filter a now c Hnd) as [Hc Hm].
    split; rewrite Hc.
    + assert (Hsub : od_keys (filter (λ kv : string * entry,
                                 ¬ Is_true (expired a now kv.2)) (cache c))
                     `sublist_of` od_keys (cache c))
        by (unfold od_keys; apply fmap_sublist, sublist_filter).
      by apply (sublist_NoDup _ _ Hnd Hsub).
    + rewrite Hm. etrans; [apply length_filter | done].
Qed.

(** X6.  Whatever calls are made on a fresh cache, [purge_unused] among
    them, its keys stay distinct and it never holds more than [max_size]
    entries. *)
Theorem cache_stays_within_capacity (n : nat) (calls : list cache_call) :
  let c := fold_left cache_exec calls (init n) in
  NoDup (od_keys (cache c)) ∧ length (cache c) ≤ n ∧ max_size c = n.
Proof.
  assert (H : ∀ c, cache_ok c → max_size c = n →
              cache_ok (fold_left cache_exec calls c)
              ∧ max_size (fold_left cache_exec calls c) = n).
  { induction calls as [|k calls IH]; intros c Hok Hm; [done|].
    simpl. apply IH; [by apply cache_exec_ok|].
    destruct k as [p|p i now|a now]; simpl; [|done|done].
    unfold get. by destruct (od_lookup p (cache c)). }
  destruct (H (init n)) as [[Hnd Hlen] Hm]; [|done|].
  - split; [apply NoDup_nil_2 | simpl; lia].
  - intros c. fold c in Hnd, Hlen, Hm. rewrite Hm in Hlen. done.
Qed.

End CacheCalls.

(** ** Rendering a page *)

Section Render.
Import ThumbnailCache.
Context {L R : Type}.
Context (path_of : R → option string).
Context (decode : string → option PhotoImage) (clock : nat → float).

Lemma elem_of_iloc_slice {A} (a b : Z) (l : list A) (i : nat) (x : A) :
  (0 ≤ a ≤ b)%Z →
  (i, x) ∈ iloc_slice a b l ↔ l !! i = Some x ∧ (a ≤ Z.of_nat i < b)%Z.
Proof.
  intros Ha. unfold iloc_slice, slice_bound.
  destruct (Z.ltb_spec a 0) as [?|_]; [lia|].
  rewrite elem_of_take. split.
  - intros (j & Hj & Hlt). rewrite lookup_drop, list_lookup_imap in Hj.
    destruct (l !! (Z.to_nat (a `min` Z.of_nat (length l)) + j)) as [y|] eqn:Hy;
      [|done].
    simpl in Hj. injection Hj as <- <-. split; [done|].
    apply lookup_lt_Some in Hy. destruct (Z.ltb_spec b 0); lia.
  - intros [Hx [Hlo Hhi]]. pose proof (lookup_lt_Some _ _ _ Hx) as Hlen.
    exists (i - Z.to_nat a). split.
    + rewrite lookup_drop, list_lookup_imap.
      replace (Z.to_nat (a `min` Z.of_nat (length l)) + (i - Z.to_nat a)) with i by lia.
      by rewrite Hx.
    + destruct (Z.ltb_spec b 0); lia.
Qed.

(** The rows of a slice come in the order of their labels, which follow one
    another from the start of the slice. *)
Lemma lookup_iloc_slice {A} (a b : Z) (l : list A) (k i : nat) (x : A) :
  (0 ≤ a ≤ b)%Z →
  iloc_slice a b l !! k = Some (i, x)
  ↔ i = Z.to_nat a + k ∧ l !! i = Some x ∧ (Z.of_nat i < b)%Z.
Proof.
  intros Ha. unfold iloc_slice, slice_bound.
  destruct (Z.ltb_spec a 0) as [?|_]; [lia|].
  destruct (Z.ltb_spec b 0) as [?|_]; [lia|].
  set (lo := Z.to_nat (a `min` Z.of_nat (length l))).
  set (hi := Z.to_nat (b `min` Z.of_nat (length l))).
  split.
  - intros H. pose proof (lookup_lt_Some _ _ _ H) as Hk.
    rewrite length_take in Hk.
    rewrite lookup_take_lt, lookup_drop, list_lookup_imap in H by lia.
    destruct (l !! (lo + k)) as [y|] eqn:Hy; [|done].
    simpl in H. injection H as <- <-.
    pose proof (lookup_lt_Some _ _ _ Hy) as Hlen.
    assert (Hlo : lo + k = Z.to_nat a + k) by lia.
    rewrite <- Hlo. split_and!; [done | done | lia].
  - intros (-> & Hx & Hb). pose proof (lookup_lt_Some _ _ _ Hx) as Hlen.
    assert (Hlo : lo + k = Z.to_nat a + k) by lia.
    rewrite lookup_take_lt by lia.
    rewrite lookup_drop, list_lookup_imap, Hlo. by rewrite Hx.
Qed.

Lemma iloc_slice_length {A} (a : Z) (l : list A) :
  length (iloc_slice a (a + Z.of_nat IMAGES_PER_PAGE)%Z l) ≤ IMAGES_PER_PAGE.
Proof.
  unfold iloc_slice, slice_bound. rewrite length_take.
  change (Z.of_nat IMAGES_PER_PAGE) with 20%Z. change IMAGES_PER_PAGE with 20.
  destruct (Z.ltb_spec a 0), (Z.ltb_spec (a + 20) 0); lia.
Qed.

Lemma get_keys_subset (p k : string) (c : t) :
  NoDup (od_keys (cache c)) →
  k ∈ od_keys (cache (get p c).2) → k ∈ od_keys (cache c).
Proof.
  intros Hnd Hin. destruct (decide (k ∈ od_keys (cache c))) as [|Hn]; [done|].
  exfalso. apply od_lookup_None in Hn.
  rewrite <- (get_keeps_times p k c Hnd) in Hn. by apply od_lookup_None in Hn.
Qed.

Lemma put_keys_subset (p k : string) (i : PhotoImage) (now : float) (c : t) :
  NoDup (od_keys (cache c)) →
  k ∈ od_keys (cache (put p i now c)) → k = p ∨ k ∈ od_keys (cache c).
Proof.
  intros Hnd. unfold put, _cleanup. cbn [cache max_size].
  rewrite cleanup_loop_keys, od_keys_setitem_move by done.
  intros Hin.
  assert (Hin' : k ∈ touch (od_keys (cache c)) p).
  { eapply sublist_subseteq; [apply sublist_drop | exact Hin]. }
  unfold touch in Hin'. apply elem_of_app in Hin' as [Hin'|Hin'].
  - right. by apply list_elem_of_filter in Hin' as [_ ?].
  - left. by apply list_elem_of_singleton in Hin'.
Qed.

Lemma state_of_place (x : cell L) (rest : completion (t * list (cell L))) :
  state_of (place x rest) = ((state_of rest).1, x :: (state_of rest).2).
Proof. by destruct rest as [[c xs]|[c xs]]. Qed.

Lemma place_Completes (x : cell L) (rest : completion (t * list (cell L))) :
  (∃ o, rest = Completes o) → ∃ o, place x rest = Completes o.
Proof. intros [[c xs] ->]. by eexists. Qed.

(** What the loop over the rows of a page guarantees, however it ends, for
    any property [P] of paths that holds of the cached and of the decodable
    ones. *)
Lemma render_rows_spec (P : string → Prop) (start : Z)
    (rows : list (nat * (L * R))) :
  (∀ p, is_Some (decode p) → P p) →
  ∀ c, cache_ok c → (∀ p, p ∈ od_keys (cache c) → P p) →
  let out := state_of (render_rows path_of decode clock start rows c) in
  cache_ok out.1
  ∧ max_size out.1 = max_size c
  ∧ (∀ p, p ∈ od_keys (cache out.1) → P p)
  ∧ length out.2 ≤ length rows
  ∧ (∀ x, x ∈ out.2 → ∃ i row path,
        (i, (cell_index x, row)) ∈ rows
        ∧ path_of row = Some path
        ∧ cell_row x = ((Z.of_nat i - start) `div` Z.of_nat COLS)%Z
        ∧ cell_col x = ((Z.of_nat i - start) `mod` Z.of_nat COLS)%Z
        ∧ P path)
  ∧ (∀ k i idx row path, rows !! k = Some (i, (idx, row)) →
        (∀ j e, j < k → rows !! j = Some e → is_Some (path_of e.2.2)) →
        path_of row = Some path → is_Some (decode path) →
        ∃ x, x ∈ out.2 ∧ cell_index x = idx
             ∧ cell_row x = ((Z.of_nat i - start) `div` Z.of_nat COLS)%Z
             ∧ cell_col x = ((Z.of_nat i - start) `mod` Z.of_nat COLS)%Z)
  ∧ ((∀ e, e ∈ rows → is_Some (path_of e.2.2)) →
     ∃ o, render_rows path_of decode clock start rows c = Completes o).
Proof.
  intros HP. induction rows as [|[i [idx row]] rows IH]; intros c Hok Hc.
  - simpl. split_and!; try done.
    + intros x Hx. by apply elem_of_nil in Hx.
    + intros _. by eexists.
  - cbn [render_rows].
    assert (Hshift : ∀ k, (∀ j e, j < S k → ((i, (idx, row)) :: rows) !! j = Some e →
                                  is_Some (path_of e.2.2)) →
                          ∀ j e, j < k → rows !! j = Some e → is_Some (path_of e.2.2)).
    { intros k H j e Hj He. apply (H (S j)); [lia | done]. }
    destruct (path_of row) as [path|] eqn:Hpath.
    2:{ cbn [state_of fst snd]. split_and!; try done.
        - simpl. lia.
        - intros x Hx. by apply elem_of_nil in Hx.
        - intros [|k] i' idx' row' path' Hk Hpre Hp' Hd.
          + injection Hk as -> -> ->. congruence.
          + destruct (Hpre 0 (i, (idx, row))) as [? H]; [lia | done |].
            simpl in H. congruence.
        - intros H. destruct (H (i, (idx, row))) as [? H']; [by left|].
          simpl in H'. congruence. }
    pose proof (cache_exec_ok c (CallGet path) Hok) as Hok1. simpl in Hok1.
    assert (Hc1 : ∀ p, p ∈ od_keys (cache (get path c).2) → P p).
    { intros p Hp. apply Hc. eapply get_keys_subset; [apply Hok | done]. }
    assert (Hm1 : max_size (get path c).2 = max_size c).
    { unfold get. by destruct (od_lookup path (cache c)). }
    destruct (get_lookup path c (proj1 Hok)) as [Hget _].
    destruct (get path c) as [[thumb|] c1] eqn:Hg; cbn [fst snd] in *.
    + assert (HPpath : P path).
      { apply Hc. destruct (od_lookup path (cache c)) as [e|] eqn:He; [|done].
        by eapply od_lookup_Some_elem. }
      destruct (IH c1 Hok1 Hc1) as (H1 & H2 & H3 & H4 & H5 & H6 & H7).
      rewrite state_of_place. cbn [fst snd].
      split_and!; [done | congruence | done | simpl; lia | | |].
      * intros x [->|Hx]%elem_of_cons.
        -- exists i, row, path. cbn. split_and!; [by left | done | done | done | done].
        -- destruct (H5 x Hx) as (i' & row' & path' & Hin & ?). exists i', row', path'.
           split; [by right | done].
      * intros [|k] i' idx' row' path' Hk Hpre Hp' Hd.
        -- injection Hk as -> -> ->. eexists. split; [by left|]. done.
        -- destruct (H6 k i' idx' row' path' Hk (Hshift k Hpre) Hp' Hd) as (x & Hx & ?).
           exists x. split; [by right | done].
      * intros H. apply place_Completes, H7. intros e He. apply H. by right.
    + destruct (decode path) as [thumb|] eqn:Hdec.
      * pose proof (cache_exec_ok c1 (CallPut path thumb (clock i)) Hok1) as Hok2.
        simpl in Hok2.
        assert (Hc2 : ∀ p, p ∈ od_keys (cache (put path thumb (clock i) c1)) → P p).
        { intros p [->|Hp]%put_keys_subset; [|by apply Hc1|apply Hok1].
          apply HP. by rewrite Hdec. }
        destruct (IH _ Hok2 Hc2) as (H1 & H2 & H3 & H4 & H5 & H6 & H7).
        rewrite state_of_place. cbn [fst snd].
        split_and!; [done | | done | simpl; lia | | |].
        -- rewrite H2. change (max_size (put path thumb (clock i) c1))
             with (max_size c1). done.
        -- intros x [->|Hx]%elem_of_cons.
           ++ exists i, row, path. cbn. split_and!; [by left | done | done | done |].
              apply HP. by rewrite Hdec.
           ++ destruct (H5 x Hx) as (i' & row' & path' & Hin & ?).
              exists i', row', path'. split; [by right | done].
        -- intros [|k] i' idx' row' path' Hk Hpre Hp' Hd.
           ++ injection Hk as -> -> ->. eexists. split; [by left|]. done.
           ++ destruct (H6 k i' idx' row' path' Hk (Hshift k Hpre) Hp' Hd)
                as (x & Hx & ?).
              exists x. split; [by right | done].
        -- intros H. apply place_Completes, H7. intros e He. apply H. by right.
      * destruct (IH c1 Hok1 Hc1) as (H1 & H2 & H3 & H4 & H5 & H6 & H7).
        split_and!; [done | congruence | done | simpl; lia | | |].
        -- intros x Hx. destruct (H5 x Hx) as (i' & row' & path' & Hin & ?).
           exists i', row', path'. split; [by right | done].
        -- intros [|k] i' idx' row' path' Hk Hpre Hp' Hd.
           ++ injection Hk as -> -> ->.
              assert (path' = path) as -> by congruence.
              rewrite Hdec in Hd. by destruct Hd.
           ++ by apply (H6 k i' idx' row' path' Hk (Hshift k Hpre)).
        -- intros H. apply H7. intros e He. apply H. by right.
Qed.

Lemma purge_keys_subset (a now : float) (k : string) (c : t) :
  NoDup (od_keys (cache c)) →
  k ∈ od_keys (cache (purge_unused a now c)) → k ∈ od_keys (cache c).
Proof.
  intros Hnd. destruct (purge_unused_filter a now c Hnd) as [-> _].
  unfold od_keys. intros (kv & -> & Hin)%list_elem_of_fmap.
  apply list_elem_of_filter in Hin as [_ Hin].
  apply list_elem_of_fmap. by exists kv.
Qed.

End Render.

Section RenderPage.
Import ThumbnailCache.
Context {L R : Type}.
Context (path_of : R → option string).
Context (decode : string → option PhotoImage) (now : float) (clock : nat → float).

Lemma render_page_spec (P : string → Prop) (d : list (L * R)) (page : Z) (c : t) :
  (∀ p, is_Some (decode p) → P p) → (∀ p, p ∈ od_keys (cache c) → P p) →
  cache_ok c →
  let start := (page * Z.of_nat IMAGES_PER_PAGE)%Z in
  let rows := iloc_slice start (start + Z.of_nat IMAGES_PER_PAGE)%Z d in
  let out := state_of (_render_page path_of decode clock now d page c) in
  cache_ok out.1
  ∧ max_size out.1 = max_size c
  ∧ (∀ p, p ∈ od_keys (cache out.1) → P p)
  ∧ length out.2 ≤ IMAGES_PER_PAGE
  ∧ (∀ x, x ∈ out.2 → ∃ i row path,
        (i, (cell_index x, row)) ∈ rows
        ∧ path_of row = Some path
        ∧ cell_row x = ((Z.of_nat i - start) `div` Z.of_nat COLS)%Z
        ∧ cell_col x = ((Z.of_nat i - start) `mod` Z.of_nat COLS)%Z
        ∧ P path)
  ∧ (∀ k i idx row path, rows !! k = Some (i, (idx, row)) →
        (∀ j e, j < k → rows !! j = Some e → is_Some (path_of e.2.2)) →
        path_of row = Some path → is_Some (decode path) →
        ∃ x, x ∈ out.2 ∧ cell_index x = idx
             ∧ cell_row x = ((Z.of_nat i - start) `div` Z.of_nat COLS)%Z
             ∧ cell_col x = ((Z.of_nat i - start) `mod` Z.of_nat COLS)%Z)
  ∧ ((∀ e, e ∈ rows → is_Some (path_of e.2.2)) →
     ∃ o, _render_page path_of decode clock now d page c = Completes o).
Proof.
  intros HP Hc Hok start rows out.
  pose proof (cache_exec_ok c (CallPurge default_max_age now) Hok) as Hok0.
  simpl in Hok0.
  destruct (render_rows_spec path_of decode clock P start rows HP
              (purge_unused default_max_age now c) Hok0)
    as (H1 & H2 & H3 & H4 & H5 & H6 & H7).
  { intros p Hp. apply Hc. eapply purge_keys_subset; [apply Hok | done]. }
  split_and!; try done.
  etrans; [exact H4 | apply iloc_slice_length].
Qed.

(** X7.  However the loop ends, every thumbnail of a page is placed inside
    the [ROWS] x [COLS] grid, row-major: the label at row [r] and column [c]
    belongs to the row of the frame at position
    [page * IMAGES_PER_PAGE + r * COLS + c], its handler carries the cell of
    the column [index] of that row, the [dir] and [file] cells of the row join
    to a path, and the image of that path was in the cache or could be
    decoded. *)
Theorem render_page_places_rows_in_grid (d : list (L * R)) (page : Z) (c : t)
    (x : cell L) :
  (0 ≤ page)%Z → cache_ok c →
  x ∈ (state_of (_render_page path_of decode clock now d page c)).2 →
  (0 ≤ cell_row x < Z.of_nat ROWS)%Z ∧ (0 ≤ cell_col x < Z.of_nat COLS)%Z
  ∧ ∃ row path,
      d !! Z.to_nat (page * Z.of_nat IMAGES_PER_PAGE
                     + cell_row x * Z.of_nat COLS + cell_col x)
      = Some (cell_index x, row)
      ∧ path_of row = Some path
      ∧ (path ∈ od_keys (cache c) ∨ is_Some (decode path)).
Proof.
  intros Hpage Hok Hx.
  destruct (render_page_spec
              (λ p, p ∈ od_keys (cache c) ∨ is_Some (decode p)) d page c)
    as (_ & _ & _ & _ & H5 & _); [by right | by left | done |].
  destruct (H5 x Hx) as (i & row & path & Hin & Hpath & Hr & Hc & HP).
  change (Z.of_nat IMAGES_PER_PAGE) with 20%Z in *.
  change (Z.of_nat COLS) with 5%Z in *. change (Z.of_nat ROWS) with 4%Z.
  apply elem_of_iloc_slice in Hin as [Hd Hi]; [|lia].
  assert (Hdm := Z.div_mod (Z.of_nat i - page * 20) 5 ltac:(lia)).
  assert (Hmb := Z.mod_pos_bound (Z.of_nat i - page * 20) 5 ltac:(lia)).
  rewrite Hr, Hc. split_and!; try lia.
  exists row, path. split; [|done].
  replace (Z.to_nat _) with i by lia. done.
Qed.

(** X8.  A row of the page whose image can be decoded gets its thumbnail,
    in the cell its position gives and with the cell of its column [index]
    in the handler, provided the [dir] and [file] cells of the rows before it
    on the page, and its own, join to a path.  Rows before it that fail to
    decode do not prevent it. *)
Theorem render_page_shows_every_decodable_row (d : list (L * R)) (page : Z) (c : t)
    (i : nat) (idx : L) (row : R) (path : string) :
  (0 ≤ page)%Z → cache_ok c →
  d !! i = Some (idx, row) →
  (page * Z.of_nat IMAGES_PER_PAGE ≤ Z.of_nat i
   < page * Z.of_nat IMAGES_PER_PAGE + Z.of_nat IMAGES_PER_PAGE)%Z →
  (∀ j idx' row', (page * Z.of_nat IMAGES_PER_PAGE ≤ Z.of_nat j)%Z → j < i →
                  d !! j = Some (idx', row') → is_Some (path_of row')) →
  path_of row = Some path →
  is_Some (decode path) →
  ∃ x, x ∈ (state_of (_render_page path_of decode clock now d page c)).2
       ∧ cell_index x = idx
       ∧ cell_row x
         = ((Z.of_nat i - page * Z.of_nat IMAGES_PER_PAGE) `div` Z.of_nat COLS)%Z
       ∧ cell_col x
         = ((Z.of_nat i - page * Z.of_nat IMAGES_PER_PAGE) `mod` Z.of_nat COLS)%Z.
Proof.
  intros Hpage Hok Hd Hi Hpre Hpath Hdec.
  destruct (render_page_spec (λ _, True) d page c)
    as (_ & _ & _ & _ & _ & H6 & _); [done | done | done |].
  assert (Hab : (0 ≤ page * Z.of_nat IMAGES_PER_PAGE
                 ≤ page * Z.of_nat IMAGES_PER_PAGE + Z.of_nat IMAGES_PER_PAGE)%Z).
  { change (Z.of_nat IMAGES_PER_PAGE) with 20%Z. lia. }
  apply (H6 (i - Z.to_nat (page * Z.of_nat IMAGES_PER_PAGE)) i idx row path);
    [| |done|done].
  - apply lookup_iloc_slice; [done|]. split_and!; [lia | done | lia].
  - intros j [i' [idx' row']] Hj He.
    apply lookup_iloc_slice in He as (-> & He & _); [|done].
    apply (Hpre (Z.to_nat (page * Z.of_nat IMAGES_PER_PAGE) + j) idx' row');
      [lia | lia | done].
Qed.

(** X9.  However the loop ends, a render leaves the cache within its
    capacity and with distinct keys, places at most [IMAGES_PER_PAGE]
    thumbnails, and does not cache a path that fails to decode.  It returns
    when the [dir] and [file] cells of every row of the page join to a
    path. *)
Theorem render_page_keeps_cache_sound (d : list (L * R)) (page : Z) (c : t) :
  cache_ok c →
  let out := state_of (_render_page path_of decode clock now d page c) in
  cache_ok out.1 ∧ max_size out.1 = max_size c
  ∧ length out.2 ≤ IMAGES_PER_PAGE
  ∧ (∀ p, decode p = None → p ∉ od_keys (cache c) → p ∉ od_keys (cache out.1))
  ∧ ((∀ e, e ∈ d → is_Some (path_of e.2)) →
     ∃ o, _render_page path_of decode clock now d page c = Completes o).
Proof.
  intros Hok out.
  destruct (render_page_spec (λ _, True) d page c)
    as (H1 & H2 & _ & H4 & _ & _ & H7); [done | done | done |].
  split_and!; [done | done | done | |].
  - intros p Hdec Hp Hin.
    destruct (render_page_spec (λ q, q ≠ p) d page c)
      as (_ & _ & H3 & _); [| |done|].
    + intros q Hq ->. rewrite Hdec in Hq. by destruct Hq.
    + intros q Hq ->. done.
    + by apply (H3 p).
  - intros Hall. apply H7. intros [i e] He. apply Hall. cbn [snd].
    unfold iloc_slice in He.
    assert (He' : (i, e) ∈ imap pair d).
    { eapply sublist_subseteq; [|exact He].
      etrans; [apply sublist_take | apply sublist_drop]. }
    apply list_elem_of_lookup in He' as [j Hj].
    rewrite list_lookup_imap in Hj. destruct (d !! j) as [y|] eqn:Hy; [|done].
    injection Hj as <- <-. by eapply list_elem_of_lookup_2.
Qed.

End RenderPage.

(** ** Loading the table *)

Lemma has_column_elem (c : string) (cols : list string) :
  has_column c cols = true ↔ c ∈ cols.
Proof.
  unfold has_column. rewrite existsb_exists. split.
  - intros (x & Hin & ->%String.eqb_eq). by apply list_elem_of_In.
  - intros Hin. exists c. split; [by apply list_elem_of_In | apply String.eqb_refl].
Qed.

Lemma load_dataframe_spec (chosen : string) (csv : Csv) :
  chosen ≠ "" → "dir" ∈ csv_columns csv → "file" ∈ csv_columns csv →
  let l := _load_dataframe chosen csv in
  destroyed l = false ∧ load_dialogs l = []
  ∧ (∀ c, c ∈ numeric_keys l
          ↔ c ∈ csv_columns csv ∧ reserved_column c = false ∧ c ∈ csv_numeric csv)
  ∧ (∀ c, c ∈ category_keys l
          ↔ c ∈ csv_columns csv ∧ reserved_column c = false ∧ c ∉ csv_numeric csv)
  ∧ loaded_df l
    = Some (if has_column "__marked__" (csv_columns csv) then csv_rows csv
            else set_marked false <$> csv_rows csv).
Proof.
  intros Hch Hdir Hfile l. unfold l, _load_dataframe.
  destruct (String.eqb_spec chosen "") as [?|_]; [done|].
  apply has_column_elem in Hdir, Hfile. rewrite Hdir, Hfile. cbn.
  assert (Hnum : ∀ c, c ∈ List.filter
                     (λ c, negb (reserved_column c) && has_column c (csv_numeric csv))
                     (csv_columns csv)
                 ↔ c ∈ csv_columns csv ∧ reserved_column c = false
                   ∧ c ∈ csv_numeric csv).
  { intros c. rewrite list_elem_of_In, filter_In, <- list_elem_of_In.
    rewrite andb_true_iff, negb_true_iff, has_column_elem. tauto. }
  split_and!; try done.
  intros c. rewrite list_elem_of_In, filter_In, <- list_elem_of_In.
  rewrite andb_true_iff, !negb_true_iff.
  rewrite <- (not_true_iff_false (has_column c _)), has_column_elem, Hnum. tauto.
Qed.

(** X15.  When a file is chosen and has the [dir] and [file] columns,
    [_load_dataframe] shows nothing and sorts every other column, bar
    [__marked__] and [Unnamed: 0], into exactly one of the numeric and the
    categorical keys: the numeric ones are those of numeric dtype.  Rows are
    unmarked when the file has no [__marked__] column and keep their marks
    when it has. *)
Theorem load_dataframe_partitions_columns (chosen : string) (csv : Csv) :
  chosen ≠ "" → "dir" ∈ csv_columns csv → "file" ∈ csv_columns csv →
  let l := _load_dataframe chosen csv in
  destroyed l = false ∧ load_dialogs l = []
  ∧ (∀ c, c ∈ numeric_keys l
          ↔ c ∈ csv_columns csv ∧ reserved_column c = false ∧ c ∈ csv_numeric csv)
  ∧ (∀ c, c ∈ category_keys l
          ↔ c ∈ csv_columns csv ∧ reserved_column c = false ∧ c ∉ csv_numeric csv)
  ∧ loaded_df l
    = Some (if has_column "__marked__" (csv_columns csv) then csv_rows csv
            else set_marked false <$> csv_rows csv).
Proof. apply load_dataframe_spec. Qed.

(** ** The running gallery *)

Lemma unmarked_rows_indexed (d : list Row) :
  unmarked_rows (indexed d) = set_marked false <$> d.
Proof.
  unfold unmarked_rows, indexed. apply list_eq. intros i.
  rewrite !list_lookup_fmap, list_lookup_imap. by destruct (d !! i).
Qed.

Lemma unmarked_rows_sublist (d1 d2 : frame) :
  d1 `sublist_of` d2 → unmarked_rows d1 `sublist_of` unmarked_rows d2.
Proof. apply fmap_sublist. Qed.

Section GalleryActions.
Context (re_other : string → option (string → bool)).

Local Abbreviation _apply_filters := (_apply_filters re_other).
Local Abbreviation _toggle_mark := (_toggle_mark re_other).
Local Abbreviation _toggle_same_name_filter := (_toggle_same_name_filter re_other).
Local Abbreviation filter_frame := (filter_frame re_other).
Local Abbreviation queries_compile := (queries_compile re_other).
Local Abbreviation passes_unmarked_filters := (passes_unmarked_filters re_other).
Local Abbreviation handle := (handle re_other).

Lemma max_page_nonneg (n : nat) : (0 ≤ max_page n)%Z.
Proof. unfold max_page. lia. Qed.

Lemma mark_rows_length (idx : list nat) : ∀ d, length (mark_rows idx d) = length d.
Proof.
  unfold mark_rows. induction idx as [|i idx IH]; intros d; [done|].
  cbn [fold_left]. by rewrite IH, length_alter.
Qed.

Lemma unmark_alter (b : bool) (i : nat) (d : list Row) :
  set_marked false <$> alter (set_marked b) i d = set_marked false <$> d.
Proof.
  revert i. induction d as [|r d IH]; intros [|i]; simpl; try done.
  f_equal. apply IH.
Qed.

Lemma unmark_mark_rows (idx : list nat) : ∀ d,
  set_marked false <$> mark_rows idx d = set_marked false <$> d.
Proof.
  unfold mark_rows. induction idx as [|i idx IH]; intros d; [done|].
  cbn [fold_left]. by rewrite IH, unmark_alter.
Qed.

Lemma unmark_insert (b : bool) (i : nat) (r : Row) (d : list Row) :
  d !! i = Some r →
  set_marked false <$> <[i := set_marked b r]> d = set_marked false <$> d.
Proof.
  revert i. induction d as [|r' d IH]; intros [|i] H; simpl in *; try done.
  - by injection H as ->.
  - f_equal. by apply IH.
Qed.

Lemma unmark_idemp (d : list Row) :
  set_marked false <$> (set_marked false <$> d) = set_marked false <$> d.
Proof. rewrite <- list_fmap_compose. by apply list_fmap_ext. Qed.

(** What one application of the filters establishes. *)
Lemma apply_filters_ok (reset : bool) (s s' : Gallery) :
  (0 ≤ page s)%Z → (0 ≤ marked_page s)%Z →
  _apply_filters reset s = Some s' →
  gallery_ok s' ∧ df s' = df s ∧ widgets s' = widgets s.
Proof.
  intros Hp Hm Happ.
  pose proof (apply_filters_clamps_page re_other reset s s' Happ Hp) as Hpage.
  rewrite <- max_page_total in Hpage.
  apply apply_filters_Some in Happ as (d & Hd & ->).
  unfold gallery_ok. split_and!; try done; try apply Hpage.
  cbn [filtered_df df]. rewrite <- unmarked_rows_indexed.
  apply unmarked_rows_sublist.
  by apply (filter_frame_sublist re_other (widgets s)).
Qed.

(** The table may change in its marks under a state that is sound. *)
Lemma gallery_ok_with_df (d : list Row) (s : Gallery) :
  gallery_ok s → set_marked false <$> d = set_marked false <$> df s →
  gallery_ok (with_df d s).
Proof.
  intros (Hpage & Hmp & Hsub) Hd. unfold gallery_ok. cbn [with_df page marked_page
    filtered_df df]. by rewrite Hd.
Qed.

Lemma ends_with_apply_filters_ok (reset : bool) (s : Gallery) :
  gallery_ok s →
  let s' := state_of (ends_with_apply_filters re_other reset s) in
  gallery_ok s' ∧ df s' = df s ∧ widgets s' = widgets s.
Proof.
  intros Hok. unfold ends_with_apply_filters.
  destruct (_apply_filters reset s) as [s'|] eqn:H; cbn [state_of]; [|done].
  destruct Hok as (Hpage & Hmp & _).
  by apply (apply_filters_ok reset s s'); [apply Hpage | |].
Qed.

Lemma handle_ok (a : action) (s : Gallery) :
  gallery_ok s →
  let s' := state_of (handle a s) in
  gallery_ok s'
  ∧ set_marked false <$> df s' = set_marked false <$> df s
  ∧ widgets s' = widgets_after a s.
Proof.
  intros Hok. pose proof Hok as (Hpage & Hmp & Hsub).
  destruct a as [| | | |idx| | | | | |w]; cbn [handle widgets_after].
  - destruct (ends_with_apply_filters_ok true s Hok) as (? & -> & ?). done.
  - unfold _mark_all_filtered.
    destruct (forallb _ _); cbn [state_of]; [|done].
    destruct (ends_with_apply_filters_ok false
                (with_df (mark_rows (filtered_df s).*1 (df s)) s)) as (? & -> & ?).
    { apply gallery_ok_with_df; [done | apply unmark_mark_rows]. }
    split_and!; [done | apply unmark_mark_rows | done].
  - unfold _clear_marked.
    destruct (ends_with_apply_filters_ok false
                (with_df (set_marked false <$> df s) s)) as (? & -> & ?).
    { apply gallery_ok_with_df; [done | apply unmark_idemp]. }
    split_and!; [done | apply unmark_idemp | done].
  - unfold _toggle_mark. destruct (selected_index s) as [i|] eqn:Hs; [|done].
    destruct (df s !! i) as [r|] eqn:Hr; cbn [state_of]; [|done].
    destruct (ends_with_apply_filters_ok false
                (with_df (<[i := set_marked (negb (marked r)) r]> (df s)) s))
      as (? & -> & ?).
    { apply gallery_ok_with_df; [done | by apply unmark_insert]. }
    split_and!; [done | by apply unmark_insert | done].
  - by destruct (idx <? length (df s)).
  - unfold _toggle_same_name_filter. cbn [same_name_var selected_index with_same_name].
    assert (Hok' : ∀ b, gallery_ok (with_same_name b s)) by (intros b; exact Hok).
    destruct (negb (same_name_var s)); [destruct (selected_index s) as [i|] eqn:Hs|].
    + cbn [df with_same_name]. destruct (df s !! i) as [r|] eqn:Hr; cbn [state_of].
      * split_and!; [|done|done]. unfold gallery_ok.
        cbn [page marked_page filtered_df df].
        split_and!; [lia | apply max_page_nonneg | done |].
        rewrite <- unmarked_rows_indexed.
        apply unmarked_rows_sublist, sublist_filter.
      * done.
    + destruct (ends_with_apply_filters_ok true _ (Hok' true)) as (? & -> & ?). done.
    + destruct (ends_with_apply_filters_ok true _ (Hok' false)) as (? & -> & ?). done.
  - cbn [state_of]. unfold _next_page, gallery_ok.
    destruct (Z.ltb_spec (page s) (max_page (length (filtered_df s))));
      split_and!; cbn; try done; lia.
  - cbn [state_of]. unfold _prev_page, gallery_ok.
    destruct (Z.ltb_spec 0 (page s)); split_and!; cbn; try done; lia.
  - cbn [state_of]. unfold _next_marked_page, gallery_ok.
    destruct (Z.ltb_spec ((marked_page s + 1) * Z.of_nat IMAGES_PER_PAGE)
                (Z.of_nat (marked_count (df s))));
      split_and!; cbn; try done; lia.
  - cbn [state_of]. unfold _prev_marked_page, gallery_ok.
    destruct (Z.ltb_spec 0 (marked_page s)); split_and!; cbn; try done; lia.
  - done.
Qed.

(** X10.  Every action of the user, whether its handler returns or an
    exception leaves it, keeps the state sound: the page of the filtered view
    lies between 0 and its last page, the page of the marked view is not
    negative, and the filtered frame holds rows of the table in table order,
    their marks set aside.  No action changes the table other than in its
    mark column, so the number of rows is constant; only an edit of the panel
    changes the filter values. *)
Theorem handle_keeps_gallery_sound (a : action) (s : Gallery) :
  gallery_ok s →
  let s' := state_of (handle a s) in
  gallery_ok s'
  ∧ set_marked false <$> df s' = set_marked false <$> df s
  ∧ length (df s') = length (df s)
  ∧ widgets s' = widgets_after a s.
Proof.
  intros Hok s'. destruct (handle_ok a s Hok) as (H1 & H2 & H3). fold s' in H1, H2, H3.
  split_and!; try done.
  rewrite <- (length_fmap (set_marked false) (df s')), H2. apply length_fmap.
Qed.


Lemma ends_with_apply_filters_df (reset : bool) (s : Gallery) :
  df (state_of (ends_with_apply_filters re_other reset s)) = df s.
Proof.
  unfold ends_with_apply_filters.
  destruct (_apply_filters reset s) as [s'|] eqn:H; cbn [state_of]; [|done].
  by apply apply_filters_Some in H as (d & _ & ->).
Qed.

Lemma set_marked_id (r : Row) : set_marked (marked r) r = r.
Proof. by destruct r. Qed.

(** X12.  Marking and unmarking cancel: toggling the mark of a row,
    selecting the row again and toggling once more gives back the table as it
    was, whether the toggles return or an exception leaves them. *)
Theorem toggle_mark_twice_restores_table (s s1 s2 : Gallery) (i : nat) :
  selected_index s = Some i →
  state_of (_toggle_mark s) = s1 →
  state_of (_toggle_mark (_select_row i s1)) = s2 →
  df s2 = df s.
Proof.
  unfold _toggle_mark. intros Hs. rewrite Hs.
  destruct (df s !! i) as [r|] eqn:Hr; cbn [state_of].
  - intros <-. cbn [selected_index _select_row df].
    rewrite ends_with_apply_filters_df. cbn [df with_df].
    rewrite list_lookup_insert_eq by (by eapply lookup_lt_Some).
    intros <-. rewrite ends_with_apply_filters_df. cbn [df with_df _select_row].
    rewrite list_insert_insert_eq. apply list_insert_id.
    rewrite Hr. f_equal. destruct r as [d f m n c]. unfold set_marked. simpl.
    by rewrite negb_involutive.
  - intros <-. cbn [selected_index _select_row df]. rewrite Hr. by intros <-.
Qed.


Lemma apply_filters_elem (reset : bool) (s s' : Gallery) (i : nat) (r : Row) :
  _apply_filters reset s = Some s' →
  (i, r) ∈ filtered_df s'
  ↔ df s !! i = Some r
    ∧ passes_unmarked_filters (widgets s) r
    ∧ (hide_marked_var (widgets s) = true → marked r = false).
Proof.
  intros (d & Hd & ->)%apply_filters_Some. cbn [filtered_df].
  by rewrite (filter_frame_elem re_other _ _ _ _ Hd), elem_of_indexed.
Qed.

(** X14.  The frame [_apply_filters] computes holds exactly the rows of the
    table that pass all filters at once: every numeric range, every category
    choice, both text tests and "hide marked"; the order in which the code
    applies them does not matter. *)
Theorem apply_filters_keeps_rows_passing_all_filters (reset : bool) (s s' : Gallery)
    (i : nat) (r : Row) :
  _apply_filters reset s = Some s' →
  (i, r) ∈ filtered_df s'
  ↔ df s !! i = Some r
    ∧ passes_unmarked_filters (widgets s) r
    ∧ (hide_marked_var (widgets s) = true → marked r = false).
Proof. apply apply_filters_elem. Qed.


End GalleryActions.

(** ** Page buttons *)

Lemma next_marked_page_test (mp : Z) (n : nat) :
  (0 ≤ mp)%Z →
  ((mp + 1) * Z.of_nat IMAGES_PER_PAGE < Z.of_nat n ↔ mp < max_page n)%Z.
Proof.
  intros Hmp. unfold max_page. rewrite ceil_pages_eq.
  change (Z.of_nat IMAGES_PER_PAGE) with 20%Z.
  assert (Hd := Z.div_mod (Z.of_nat n + 19) 20 ltac:(lia)).
  assert (Hd' := Z.mod_pos_bound (Z.of_nat n + 19) 20 ltac:(lia)).
  lia.
Qed.

Lemma with_page_id (s : Gallery) : with_page (page s) s = s.
Proof. by destruct s. Qed.

Lemma with_marked_page_id (s : Gallery) : with_marked_page (marked_page s) s = s.
Proof. by destruct s. Qed.

(** X17.  The page buttons stop at the ends, in both views: "Next" on or
    past the last page and "Prev" on page 0 leave the state as it is. *)
Theorem page_buttons_stop_at_the_ends (s : Gallery) :
  ((max_page (length (filtered_df s)) ≤ page s)%Z → _next_page s = s)
  ∧ ((page s ≤ 0)%Z → _prev_page s = s)
  ∧ ((0 ≤ marked_page s)%Z →
     (max_page (marked_count (df s)) ≤ marked_page s)%Z → _next_marked_page s = s)
  ∧ ((marked_page s ≤ 0)%Z → _prev_marked_page s = s).
Proof.
  split_and!.
  - intros H. unfold _next_page.
    destruct (Z.ltb_spec (page s) (max_page (length (filtered_df s)))); [lia|done].
  - intros H. unfold _prev_page. destruct (Z.ltb_spec 0 (page s)); [lia|done].
  - intros H0 H. unfold _next_marked_page.
    destruct (Z.ltb_spec ((marked_page s + 1) * Z.of_nat IMAGES_PER_PAGE)
                (Z.of_nat (marked_count (df s)))) as [Hlt|]; [|done].
    apply next_marked_page_test in Hlt; [lia|done].
  - intros H. unfold _prev_marked_page.
    destruct (Z.ltb_spec 0 (marked_page s)); [lia|done].
Qed.

(** X18.  Where "Next" moves, "Prev" moves back: from a page before the
    last one, "Next" followed by "Prev" gives the state back, in both
    views. *)
Theorem next_then_prev_returns (s : Gallery) :
  ((0 ≤ page s < max_page (length (filtered_df s)))%Z →
     page (_next_page s) = (page s + 1)%Z ∧ _prev_page (_next_page s) = s)
  ∧ ((0 ≤ marked_page s < max_page (marked_count (df s)))%Z →
     marked_page (_next_marked_page s) = (marked_page s + 1)%Z
     ∧ _prev_marked_page (_next_marked_page s) = s).
Proof.
  split.
  - intros [H0 H]. unfold _next_page.
    destruct (Z.ltb_spec (page s) (max_page (length (filtered_df s)))); [|lia].
    split; [done|]. unfold _prev_page. cbn [page with_page].
    destruct (Z.ltb_spec 0 (page s + 1)); [|lia].
    rewrite <- (with_page_id s) at 4. unfold with_page. cbn. f_equal. lia.
  - intros [H0 H]. unfold _next_marked_page.
    destruct (Z.ltb_spec ((marked_page s + 1) * Z.of_nat IMAGES_PER_PAGE)
                (Z.of_nat (marked_count (df s)))) as [|Hge].
    + split; [done|]. unfold _prev_marked_page. cbn [marked_page with_marked_page].
      destruct (Z.ltb_spec 0 (marked_page s + 1)); [|lia].
      rewrite <- (with_marked_page_id s) at 4. unfold with_marked_page. cbn.
      f_equal. lia.
    + apply next_marked_page_test in H; [lia|done].
Qed.

(** X19.  The buttons of the marked view keep its page between 0 and the
    last page, and "Next" advances exactly when the marked rows fill a
    further page. *)
Theorem marked_page_buttons_stay_in_range (s : Gallery) :
  (0 ≤ marked_page s ≤ max_page (marked_count (df s)))%Z →
  (0 ≤ marked_page (_next_marked_page s)
   ≤ max_page (marked_count (df (_next_marked_page s))))%Z
  ∧ (0 ≤ marked_page (_prev_marked_page s)
     ≤ max_page (marked_count (df (_prev_marked_page s))))%Z
  ∧ (marked_page (_next_marked_page s) = (marked_page s + 1)%Z
     ↔ (marked_page s < max_page (marked_count (df s)))%Z).
Proof.
  intros [H0 H]. unfold _next_marked_page, _prev_marked_page.
  pose proof (next_marked_page_test (marked_page s) (marked_count (df s)) H0) as Ht.
  destruct (Z.ltb_spec ((marked_page s + 1) * Z.of_nat IMAGES_PER_PAGE)
              (Z.of_nat (marked_count (df s))));
    destruct (Z.ltb_spec 0 (marked_page s));
    cbn [marked_page df with_marked_page]; lia.
Qed.

(** ** Labels *)

(** X20.  In a sound state the label of the gallery reads
    [Page p / t] with [1 ≤ p ≤ t]: the page shown is never past the count of
    pages beside it. *)
Theorem page_label_shows_page_within_total (s : Gallery) :
  gallery_ok s →
  ∃ p t : Z, _update_page_label s = ("Page " ++ pretty p ++ " / " ++ pretty t)%string
             ∧ (1 ≤ p ≤ t)%Z.
Proof.
  intros (Hp & _). exists (page s + 1)%Z, (total_pages (length (filtered_df s))).
  split; [reflexivity|]. rewrite max_page_total in Hp. lia.
Qed.

(** X21.  In a sound state the counter reads [Filtered: n / m] with
    [n ≤ m]: the gallery never holds more rows than the table. *)
Theorem counts_label_filtered_at_most_total (s : Gallery) :
  gallery_ok s →
  ∃ n m : nat, _update_counts s = ("Filtered: " ++ pretty n ++ " / " ++ pretty m)%string
               ∧ n ≤ m.
Proof.
  intros (_ & _ & Hsub). exists (length (filtered_df s)), (length (df s)).
  split; [reflexivity|].
  apply sublist_length in Hsub. unfold unmarked_rows in Hsub.
  by rewrite !length_fmap in Hsub.
Qed.

(** ** The further properties at concrete inputs *)

Lemma sample_cache_NoDup : NoDup (od_keys (ThumbnailCache.cache sample_cache)).
Proof. apply (bool_decide_unpack _). vm_compute. exact I. Qed.

Lemma fresh_cache_ok (n : nat) : cache_ok (ThumbnailCache.init n).
Proof. split; [apply NoDup_nil_2 | simpl; lia]. Qed.

Lemma sample_gallery_ok : gallery_ok sample_gallery.
Proof.
  unfold gallery_ok. split_and!.
  - apply (proj1 (Z.leb_le _ _)). reflexivity.
  - apply (proj1 (Z.leb_le _ _)). reflexivity.
  - apply (proj1 (Z.leb_le _ _)). reflexivity.
  - rewrite <- unmarked_rows_indexed. apply unmarked_rows_sublist.
    apply (filter_frame_sublist re_unused sample_widgets). vm_compute. reflexivity.
Qed.

(** The entries put at times 0 and 5 and a purge at time 903: only the
    second stays.  And an entry put when the clock read 0.1, purged when it
    reads 900.1, both as the nearest floats: the difference of the floats is
    900, not more, and the entry stays. *)
Lemma purge_unused_keeps_fresh_entries_witness :
  NoDup (od_keys (ThumbnailCache.cache sample_cache))
  ∧ ThumbnailCache.cache (ThumbnailCache.purge_unused 900 903 sample_cache)
    = [("b.png", (2, 5%float))]
  ∧ ThumbnailCache.cache
      (ThumbnailCache.purge_unused 900 0x1.c20cccccccccdp+9 threshold_cache)
    = [("a.png", (1, 0x1.999999999999ap-4%float))].
Proof.
  split; [exact sample_cache_NoDup|]. split.
  - exact (proj1 (purge_unused_keeps_fresh_entries 900 903 sample_cache
                    sample_cache_NoDup)).
  - exact (proj1 (purge_unused_keeps_fresh_entries 900 0x1.c20cccccccccdp+9
                    threshold_cache
                    (NoDup_singleton ("a.png" : string)))).
Defined.

Lemma get_returns_stored_image_witness :
  NoDup (od_keys (ThumbnailCache.cache sample_cache))
  ∧ (ThumbnailCache.get "a.png" sample_cache).1 = Some 1
  ∧ (ThumbnailCache.get "z.png" sample_cache).1 = None.
Proof.
  split; [exact sample_cache_NoDup|]. split.
  - exact (proj1 (get_returns_stored_image "a.png" sample_cache sample_cache_NoDup)).
  - exact (proj1 (get_returns_stored_image "z.png" sample_cache sample_cache_NoDup)).
Defined.

Lemma put_then_get_returns_image_witness :
  1 ≤ ThumbnailCache.max_size sample_cache
  ∧ (ThumbnailCache.get "c.png" (ThumbnailCache.put "c.png" 3 7 sample_cache)).1
    = Some 3.
Proof.
  assert (H : 1 ≤ ThumbnailCache.max_size sample_cache) by (simpl; lia).
  split; [exact H|].
  exact (put_then_get_returns_image "c.png" 3 7 sample_cache sample_cache_NoDup H).
Defined.

Lemma put_new_key_evicts_least_recent_witness :
  ("c.png" ∉ od_keys (ThumbnailCache.cache sample_cache))
  ∧ (ThumbnailCache.cache (ThumbnailCache.put "c.png" 3 7 sample_cache)
     = [("b.png", (2, 5%float)); ("c.png", (3, 7%float))]).
Proof.
  assert (Hn : "c.png" ∉ od_keys (ThumbnailCache.cache sample_cache)).
  { apply (bool_decide_unpack _). vm_compute. exact I. }
  assert (H1 : 1 ≤ ThumbnailCache.max_size sample_cache) by (simpl; lia).
  assert (H2 : length (ThumbnailCache.cache sample_cache)
               ≤ ThumbnailCache.max_size sample_cache) by (simpl; lia).
  split; [exact Hn|].
  exact (put_new_key_evicts_least_recent "c.png" 3 7 sample_cache Hn H1 H2).
Defined.

Lemma put_into_zero_capacity_keeps_nothing_witness :
  ThumbnailCache.cache (ThumbnailCache.put "a.png" 1 0 (ThumbnailCache.init 0)) = [].
Proof.
  exact (proj1 (put_into_zero_capacity_keeps_nothing "a.png" 1 0
                  (ThumbnailCache.init 0) eq_refl)).
Defined.

Lemma render_page_places_rows_in_grid_witness :
  let x := {| cell_row := 0; cell_col := 1; cell_image := 12; cell_index := 1 |} in
  x ∈ (state_of (_render_page row_path sample_decode (λ _, 0%float) 0
                   (filtered_df sample_gallery) 0
                   (ThumbnailCache.init MAX_THUMB_CACHE))).2
  ∧ ∃ row, filtered_df sample_gallery !! 1 = Some (1, row)
           ∧ row_path row = Some "Dogs/ba.png".
Proof.
  intros x.
  assert (Hx : x ∈ (state_of (_render_page row_path sample_decode (λ _, 0%float) 0
                                (filtered_df sample_gallery) 0
                                (ThumbnailCache.init MAX_THUMB_CACHE))).2).
  { vm_compute. apply elem_of_cons. right. apply elem_of_cons. by left. }
  split; [exact Hx|].
  destruct (render_page_places_rows_in_grid row_path sample_decode 0 (λ _, 0%float)
              (filtered_df sample_gallery) 0 (ThumbnailCache.init MAX_THUMB_CACHE) x
              ltac:(lia) (fresh_cache_ok _) Hx) as (_ & _ & row & path & Hrow & Hpath & _).
  exists row. split; [exact Hrow|].
  injection Hrow as <-. reflexivity.
Defined.

(** In the frame [raw_frame] the second row has a cell that is not a
    string: the first row gets its thumbnail, then the loop raises, and the
    third row, which could be decoded, gets none. *)
Lemma render_page_shows_every_decodable_row_witness :
  (∃ x, x ∈ (state_of (_render_page row_path sample_decode (λ _, 0%float) 0
                         (filtered_df sample_gallery) 0
                         (ThumbnailCache.init MAX_THUMB_CACHE))).2
        ∧ cell_index x = 1 ∧ cell_row x = 0%Z ∧ cell_col x = 1%Z)
  ∧ (∃ x, x ∈ (state_of (_render_page id sample_decode (λ _, 0%float) 0
                           raw_frame 0 (ThumbnailCache.init MAX_THUMB_CACHE))).2
          ∧ cell_index x = "r0")
  ∧ _render_page id sample_decode (λ _, 0%float) 0 raw_frame 0
      (ThumbnailCache.init MAX_THUMB_CACHE)
    = Raises (ThumbnailCache.put "cats/a.png" 11 0 (ThumbnailCache.init MAX_THUMB_CACHE),
              [{| cell_row := 0; cell_col := 0; cell_image := 11;
                  cell_index := "r0" |}]).
Proof.
  assert (Hrange : ∀ n, n < 20 →
            (0 * Z.of_nat IMAGES_PER_PAGE ≤ Z.of_nat n
             < 0 * Z.of_nat IMAGES_PER_PAGE + Z.of_nat IMAGES_PER_PAGE)%Z).
  { intros n Hn. change (Z.of_nat IMAGES_PER_PAGE) with 20%Z. lia. }
  split; [|split].
  - destruct (render_page_shows_every_decodable_row row_path sample_decode 0
                (λ _, 0%float) (filtered_df sample_gallery) 0
                (ThumbnailCache.init MAX_THUMB_CACHE)
                1 1 (sample_row "Dogs" "ba.png" true (FFin (1 # 4)) (Some "dog"))
                "Dogs/ba.png"
                ltac:(lia) (fresh_cache_ok _) eq_refl (Hrange 1 ltac:(lia))
                ltac:(by (intros j idx' row' _ _ _; eexists))
                eq_refl (ex_intro _ 12 eq_refl)) as (x & Hx & Hidx & Hr & Hc).
    exists x. split; [exact Hx|]. split; [exact Hidx|]. split; [exact Hr | exact Hc].
  - destruct (render_page_shows_every_decodable_row id sample_decode 0
                (λ _, 0%float) raw_frame 0 (ThumbnailCache.init MAX_THUMB_CACHE)
                0 "r0" (Some "cats/a.png") "cats/a.png"
                ltac:(lia) (fresh_cache_ok _) eq_refl (Hrange 0 ltac:(lia))
                ltac:(intros j idx' row' _ Hj; lia)
                eq_refl (ex_intro _ 11 eq_refl)) as (x & Hx & Hidx & _).
    exists x. split; [exact Hx | exact Hidx].
  - vm_compute. reflexivity.
Defined.

Lemma render_page_keeps_cache_sound_witness :
  let out := state_of (_render_page row_path sample_decode (λ _, 0%float) 0
                         (indexed sample_df) 0
                         (ThumbnailCache.init MAX_THUMB_CACHE)) in
  cache_ok out.1 ∧ ("cats/c.png" ∉ od_keys (ThumbnailCache.cache out.1))
  ∧ ∃ o, _render_page row_path sample_decode (λ _, 0%float) 0
           (indexed sample_df) 0 (ThumbnailCache.init MAX_THUMB_CACHE)
         = Completes o.
Proof.
  intros out.
  destruct (render_page_keeps_cache_sound row_path sample_decode 0 (λ _, 0%float)
              (indexed sample_df) 0 (ThumbnailCache.init MAX_THUMB_CACHE)
              (fresh_cache_ok _)) as (Hok & _ & _ & Hnot & Hret).
  split; [exact Hok|]. split.
  - apply Hnot; [reflexivity | apply not_elem_of_nil].
  - apply Hret. intros e _. by eexists.
Defined.

Lemma handle_keeps_gallery_sound_witness :
  (∃ s', handle re_unused MarkAllFiltered sample_gallery = Completes s'
         ∧ gallery_ok s' ∧ length (df s') = 3)
  ∧ (∃ s', handle re_unused ToggleMark
             (with_widgets sample_widgets_bad_query sample_gallery) = Raises s'
           ∧ gallery_ok s' ∧ length (df s') = 3).
Proof.
  split.
  - eexists. split; [vm_compute; reflexivity|].
    destruct (handle_keeps_gallery_sound re_unused MarkAllFiltered sample_gallery
                sample_gallery_ok) as (Hok & _ & Hlen & _).
    split; [exact Hok | exact Hlen].
  - eexists. split; [vm_compute; reflexivity|].
    destruct (handle_keeps_gallery_sound re_unused ToggleMark
                (with_widgets sample_widgets_bad_query sample_gallery)
                sample_gallery_ok) as (Hok & _ & Hlen & _).
    split; [exact Hok | exact Hlen].
Defined.

Lemma toggle_mark_twice_restores_table_witness :
  ∃ s1 s2, _toggle_mark re_unused sample_gallery = Completes s1
           ∧ _toggle_mark re_unused (_select_row 0 s1) = Completes s2
           ∧ df s2 = df sample_gallery.
Proof.
  eexists _, _. split; [vm_compute; reflexivity|]. split; [vm_compute; reflexivity|].
  exact (toggle_mark_twice_restores_table re_unused sample_gallery _ _ 0
           eq_refl eq_refl eq_refl).
Defined.


Lemma apply_filters_keeps_rows_passing_all_filters_witness :
  let r := sample_row "cats" "a.png" false (FFin (1 # 2)) (Some "cat") in
  ∃ s', _apply_filters re_unused true sample_gallery = Some s'
        ∧ ((0, r) ∈ filtered_df s'
           ↔ df sample_gallery !! 0 = Some r
             ∧ passes_unmarked_filters re_unused (widgets sample_gallery) r
             ∧ (hide_marked_var (widgets sample_gallery) = true → marked r = false)).
Proof.
  intros r. eexists. split; [vm_compute; reflexivity|].
  exact (apply_filters_keeps_rows_passing_all_filters re_unused true sample_gallery
           _ 0 r eq_refl).
Defined.

Lemma sample_csv_has_dir : "dir" ∈ csv_columns sample_csv.
Proof. apply (bool_decide_unpack _). vm_compute. exact I. Qed.

Lemma sample_csv_has_file : "file" ∈ csv_columns sample_csv.
Proof. apply (bool_decide_unpack _). vm_compute. exact I. Qed.

Lemma load_dataframe_partitions_columns_witness :
  let l := _load_dataframe "table.csv" sample_csv in
  numeric_keys l = ["score"] ∧ category_keys l = ["label"]
  ∧ ("score" ∈ numeric_keys l
     ↔ "score" ∈ csv_columns sample_csv ∧ reserved_column "score" = false
       ∧ "score" ∈ csv_numeric sample_csv).
Proof.
  intros l. split; [reflexivity|]. split; [reflexivity|].
  assert (Hch : "table.csv" ≠ "") by discriminate.
  destruct (load_dataframe_partitions_columns "table.csv" sample_csv Hch
              sample_csv_has_dir sample_csv_has_file) as (_ & _ & Hnum & _).
  exact (Hnum "score").
Defined.



Lemma page_buttons_stop_at_the_ends_witness :
  _next_page sample_gallery = sample_gallery
  ∧ _prev_page sample_gallery = sample_gallery
  ∧ _next_marked_page sample_gallery = sample_gallery
  ∧ _prev_marked_page sample_gallery = sample_gallery.
Proof.
  destruct (page_buttons_stop_at_the_ends sample_gallery) as (H1 & H2 & H3 & H4).
  split_and!.
  - apply H1. apply (proj1 (Z.leb_le _ _)). reflexivity.
  - apply H2. apply (proj1 (Z.leb_le _ _)). reflexivity.
  - apply H3; apply (proj1 (Z.leb_le _ _)); reflexivity.
  - apply H4. apply (proj1 (Z.leb_le _ _)). reflexivity.
Defined.

Lemma next_then_prev_returns_witness :
  page (_next_page marked_gallery) = 1%Z
  ∧ _prev_page (_next_page marked_gallery) = marked_gallery
  ∧ _prev_marked_page (_next_marked_page marked_gallery) = marked_gallery.
Proof.
  destruct (next_then_prev_returns marked_gallery) as (H1 & H2).
  assert (Ha : (0 ≤ page marked_gallery
                < max_page (length (filtered_df marked_gallery)))%Z).
  { split; [apply (proj1 (Z.leb_le _ _)) | apply (proj1 (Z.ltb_lt _ _))]; reflexivity. }
  assert (Hb : (0 ≤ marked_page marked_gallery
                < max_page (marked_count (df marked_gallery)))%Z).
  { split; [apply (proj1 (Z.leb_le _ _)) | apply (proj1 (Z.ltb_lt _ _))]; reflexivity. }
  split; [exact (proj1 (H1 Ha))|]. split; [exact (proj2 (H1 Ha)) | exact (proj2 (H2 Hb))].
Defined.

Lemma marked_page_buttons_stay_in_range_witness :
  (0 ≤ marked_page marked_gallery ≤ max_page (marked_count (df marked_gallery)))%Z
  ∧ marked_page (_next_marked_page marked_gallery) = 1%Z.
Proof.
  assert (Ha : (0 ≤ marked_page marked_gallery
                ≤ max_page (marked_count (df marked_gallery)))%Z).
  { split; apply (proj1 (Z.leb_le _ _)); reflexivity. }
  split; [exact Ha|].
  apply (proj2 (proj2 (marked_page_buttons_stay_in_range marked_gallery Ha))).
  apply (proj1 (Z.ltb_lt _ _)). reflexivity.
Defined.

Lemma page_label_shows_page_within_total_witness :
  _update_page_label sample_gallery = "Page 1 / 1"
  ∧ ∃ p t : Z, _update_page_label sample_gallery
               = ("Page " ++ pretty p ++ " / " ++ pretty t)%string
               ∧ (1 ≤ p ≤ t)%Z.
Proof.
  split; [vm_compute; reflexivity|].
  exact (page_label_shows_page_within_total sample_gallery sample_gallery_ok).
Defined.

Lemma counts_label_filtered_at_most_total_witness :
  _update_counts sample_gallery = "Filtered: 2 / 3"
  ∧ ∃ n m : nat, _update_counts sample_gallery
                 = ("Filtered: " ++ pretty n ++ " / " ++ pretty m)%string
                 ∧ n ≤ m.
Proof.
  split; [vm_compute; reflexivity|].
  exact (counts_label_filtered_at_most_total sample_gallery sample_gallery_ok).
Defined.
